(** * Presence and direct-messaging coordinator: [src/handlers.ts]

    A shallow embedding of the WebSocket Lambda handler.  The two DynamoDB
    tables are finite maps keyed by their primary key, the API Gateway
    management endpoint is an oracle of the invocation's environment, and
    every handler is a computation in a state-and-exception monad over the
    tables.  A chronological trace of store writes and transport pushes is
    kept next to the tables, so that statements can speak about which pushes
    were issued and about every intermediate registry state. *)

From Stdlib Require Import ZArith String Ascii List.
From stdpp Require Import gmap strings list fin_maps.

Local Open Scope string_scope.
Local Open Scope list_scope.
Local Open Scope Z_scope.

(** ** Data model *)

(** [type Client]: one row of the [Clients] table. *)
Record Client := mkClient {
  connectionId : string;
  nickname : string
}.

(** The item written by [handleSendMessage] to the [Messages] table. *)
Record Message := mkMessage {
  messageId : string;
  createdAt : Z;
  nicknameToNickname : string;
  message : string;
  sender : string
}.

(** Values produced by [JSON.parse].  Numbers are restricted to integers. *)
#[local] Unset Elimination Schemes.
Inductive json :=
| JNull
| JBool (b : bool)
| JNum (n : Z)
| JStr (s : string)
| JArr (items : list json)
| JObj (fields : list (string * json)).
#[local] Set Elimination Schemes.

(** [type SendMessageBody]. *)
Record SendMessageBody := mkSendMessageBody {
  body_message : string;
  recipientNickname : string
}.

(** [type GetMessagesBody]; [startKey] is whatever the parsed object holds
    under that name, it is never validated by the handler. *)
Record GetMessagesBody := mkGetMessagesBody {
  targetNickname : string;
  limit : Z;
  startKey : option json
}.

(** [APIGatewayProxyResult]. *)
Record Response := mkResponse {
  statusCode : Z;
  body : string
}.

Definition responseOk : Response := mkResponse 200 "".
Definition responseForbidden : Response := mkResponse 403 "".
Definition responseUnhandled : Response := mkResponse 500 "".

(** The fields of [APIGatewayProxyEvent] read by [handle]. *)
Record Event := mkEvent {
  ev_connectionId : string;
  routeKey : string;
  queryStringParameters : option (gmap string string);
  ev_body : option string
}.

(** The objects handed to [JSON.stringify] before a push.  The payload is
    kept structured; it stands for its JSON text. *)
Inductive Payload :=
| PPing
| PClients (cs : list Client)
| PMessage (m : Message)
| PMessages (ms : list Message)
| PError (msg : string).

(** What [apiGw.postToConnection(...).promise()] does: it resolves, or it
    rejects with an error whose [statusCode] may be absent. *)
Inductive TransportResult :=
| Delivered
| Rejected (status : option Z).

(** Exceptions that can travel through the handlers. *)
Inductive Exn :=
| HandleError (msg : string)
| SyntaxError
| TypeError
| TransportError (status : option Z)
| ValidationException.

Inductive Outcome (A : Type) :=
| Ok (a : A)
| Throw (e : Exn).
Arguments Ok {A} a.
Arguments Throw {A} e.

(** Store writes and pushes, in the order the handler performs them.  A
    push is recorded when its request is sent, with the answer the
    transport gives to it, whenever that answer arrives. *)
Inductive Effect :=
| PutClient (c : Client)
| DeleteClient (cid : string)
| PutMessage (m : Message)
| Post (cid : string) (data : Payload) (r : TransportResult).

(** The [Clients] table maps a connectionId to its nickname; the [Messages]
    table maps a messageId to its item. *)
Record World := mkWorld {
  clients : gmap string string;
  messages : gmap string Message;
  trace : list Effect
}.

Definition initialWorld : World := mkWorld ∅ ∅ [].

(** Everything an invocation takes from outside the program: the JSON
    parser ([None] is a thrown [SyntaxError]), the management endpoint, the
    values returned by [v4()] and [new Date().getTime()], the store's
    reading of [ExclusiveStartKey] on an ordered query result, and the
    time at which the promise of each push settles. *)
Record Env := mkEnv {
  JSON_parse : string → option json;
  apiGw : string → Payload → TransportResult;
  v4 : string;
  now : Z;
  exclusiveStart : json → list Message → list Message;
  arrival : string → Payload → nat
}.

Instance Client_eq_dec : EqDecision Client.
Proof. solve_decision. Defined.
Instance Message_eq_dec : EqDecision Message.
Proof. solve_decision. Defined.
Instance TransportResult_eq_dec : EqDecision TransportResult.
Proof. solve_decision. Defined.

(** ** The handler monad *)

Definition M (A : Type) : Type := World → Outcome A * World.

Definition ret {A} (a : A) : M A := λ w, (Ok a, w).
Definition throw {A} (e : Exn) : M A := λ w, (Throw e, w).
Definition bind {A B} (m : M A) (k : A → M B) : M B :=
  λ w, match m w with
       | (Ok a, w') => k a w'
       | (Throw e, w') => (Throw e, w')
       end.

Declare Scope handler_scope.
Delimit Scope handler_scope with handler.
Notation "'let!' x ':=' m 'in' k" := (bind m (λ x, k))
  (at level 10, x name, m at level 100, k at level 200) : handler_scope.
Notation "'do!' m 'in' k" := (bind m (λ _, k))
  (at level 10, m at level 100, k at level 200) : handler_scope.
Local Open Scope handler_scope.

(** A promise that has been started: the time at which it settles, which
    the environment decides, and what is left to run when it does. *)
Record Promise (A : Type) := mkPromise {
  settledAt : nat;
  continuation : M A
}.
Arguments mkPromise {A} settledAt continuation.
Arguments settledAt {A} p.
Arguments continuation {A} p.

(** [await p]. *)
Definition await {A} (p : Promise A) : M A := continuation p.

(** The promise of an async function that awaits [p] and goes on with
    [k]. *)
Definition andThen {A B} (p : Promise A) (k : A → M B) : Promise B :=
  mkPromise (settledAt p) (let! a := await p in k a).

(** [array.map(f)] for an async [f]: every call runs up to its first
    await, in array order, and leaves a promise. *)
Fixpoint startAll {A} (calls : list (M (Promise A))) : M (list (Promise A)) :=
  match calls with
  | [] => ret []
  | call :: rest =>
    let! p := call in
    let! ps := startAll rest in
    ret (p :: ps)
  end.

(** Stable insertion sort by a key. *)
Fixpoint insertBy {A} (key : A → nat) (x : A) (l : list A) : list A :=
  match l with
  | [] => [x]
  | y :: rest => if (key x <=? key y)%nat then x :: y :: rest
                 else y :: insertBy key x rest
  end.

Definition sortBy {A} (key : A → nat) (l : list A) : list A :=
  foldr (insertBy key) [] l.

(** The promises run what is left of them one after the other; the first
    rejection ends the run, and the promises behind it are left as they
    are. *)
Fixpoint settleAll {A} (ps : list (nat * Promise A)) : M (list (nat * A)) :=
  match ps with
  | [] => ret []
  | ip :: rest =>
    let! a := await ip.2 in
    let! l := settleAll rest in
    ret ((ip.1, a) :: l)
  end.

(** [Promise.all]: the promises settle in the order of their times, ties
    in array order.  The join rejects with the first rejection in that
    order, and at that point the promises that settle later have not run;
    when no promise rejects, it resolves with the results in array
    order. *)
Definition promiseAll {A} (ps : list (Promise A)) : M (list A) :=
  let! settled :=
    settleAll (sortBy (λ ip, settledAt ip.2) (imap pair ps)) in
  ret (omap (λ i, snd <$> List.find (λ ia, Nat.eqb ia.1 i) settled)
            (seq 0 (length ps))).

(** JavaScript truthiness of a string. *)
Definition truthy (s : string) : bool := negb (String.eqb s "").

(** ** Store primitives *)

(** What one effect does to the [Clients] table; a push touches no
    table. *)
Definition applyClients (e : Effect) (reg : gmap string string)
    : gmap string string :=
  match e with
  | PutClient c => <[connectionId c := nickname c]> reg
  | DeleteClient cid => delete cid reg
  | _ => reg
  end.

(** Modelled from the spec: the primary key of the [Messages] table is not
    declared in the source; the spec describes [messageId] as the globally
    unique identifier of a message, so a put is keyed by it. *)
Definition applyMessages (e : Effect) (ms : gmap string Message)
    : gmap string Message :=
  match e with
  | PutMessage m => <[messageId m := m]> ms
  | _ => ms
  end.

Definition applyEffect (w : World) (e : Effect) : World :=
  mkWorld (applyClients e (clients w)) (applyMessages e (messages w))
          (trace w ++ [e]).

Definition perform (e : Effect) : M unit := λ w, (Ok tt, applyEffect w e).

(** [docClient.put] and [docClient.delete] on the [Clients] table, and
    [docClient.put] on the [Messages] table. *)
Definition putClient (cid nick : string) : M unit :=
  perform (PutClient (mkClient cid nick)).

Definition deleteClient (cid : string) : M unit :=
  perform (DeleteClient cid).

Definition putMessage (m : Message) : M unit :=
  perform (PutMessage m).

Definition scanClients (w : World) : list Client :=
  (λ row, mkClient row.1 row.2) <$> map_to_list (clients w).

(** ** Registry lookups *)

Definition getConnectionIdByNickname (nick : string) : M (option string) :=
  λ w, (Ok (connectionId <$>
              head (filter (λ c, nickname c = nick) (scanClients w))), w).

Definition getAllClients : M (list Client) :=
  λ w, (Ok (scanClients w), w).

(** [output.Item as Client]: [None] is [undefined]. *)
Definition getClient (cid : string) : M (option Client) :=
  λ w, (Ok (mkClient cid <$> clients w !! cid), w).

(** ** Delivery gateway *)

(** The call of [postToConnection]: the request is sent at once, and the
    promise holds what the function does with the answer. *)
Definition postToConnection_async (env : Env) (cid : string) (data : Payload)
    : M (Promise bool) :=
  let r := apiGw env cid data in
  do! perform (Post cid data r) in
  ret (mkPromise (arrival env cid data)
         match r with
         | Delivered => ret true
         | Rejected status =>
           if decide (status = Some 410)
           then do! deleteClient cid in ret false
           else throw (TransportError status)
         end).

(** [await postToConnection(connectionId, data)]. *)
Definition postToConnection (env : Env) (cid : string) (data : Payload) : M bool :=
  let! p := postToConnection_async env cid data in
  await p.

Definition createClientsMessage (cs : list Client) : Payload := PClients cs.

Definition notifyClients (env : Env) (connectionIdToExclude : string) : M unit :=
  let! cs := getAllClients in
  let! promises :=
    startAll
      ((λ c, let! p := postToConnection_async env (connectionId c)
                         (createClientsMessage cs) in
             ret (andThen p (λ _, ret tt)))
         <$> filter (λ c, connectionId c ≠ connectionIdToExclude) cs) in
  do! promiseAll promises in
  ret tt.

(** ** Presence coordinator *)

Definition handleConnect (env : Env) (cid : string)
    (queryParams : option (gmap string string)) : M Response :=
  match queryParams with
  | None => ret responseForbidden
  | Some q =>
    match q !! "nickname" with
    | None => ret responseForbidden
    | Some nick =>
      if truthy nick then
        let! existingConnectionId := getConnectionIdByNickname nick in
        let! taken :=
          match existingConnectionId with
          | Some ex => if truthy ex then postToConnection env ex PPing
                       else ret false
          | None => ret false
          end in
        if (taken : bool) then ret responseForbidden
        else
          do! putClient cid nick in
          do! notifyClients env cid in
          ret responseOk
      else ret responseForbidden
    end
  end.

Definition handleDisconnect (env : Env) (cid : string) : M Response :=
  do! deleteClient cid in
  do! notifyClients env cid in
  ret responseOk.

Definition handleGetClients (env : Env) (cid : string) : M Response :=
  let! cs := getAllClients in
  do! postToConnection env cid (createClientsMessage cs) in
  ret responseOk.

(** ** Message router *)

(** [Array.prototype.sort] without a comparator orders strings by code
    unit; for a total order the sorted array is unique, so insertion sort
    computes it. *)
Fixpoint sort_insert (s : string) (l : list string) : list string :=
  match l with
  | [] => [s]
  | t :: rest => if String.leb s t then s :: t :: rest
                 else t :: sort_insert s rest
  end.

Definition sort_strings (l : list string) : list string :=
  foldr sort_insert [] l.

Definition getNicknameToNickname (nicknames : list string) : string :=
  String.concat "#" (sort_strings nicknames).

(** Modelled from the spec: the key schema of [NicknameToNicknameIndex] is
    not declared in the source; the spec orders a conversation by
    [createdAt], so [ScanIndexForward: false] lists it newest first.  The
    insertion keeps the table's order among equal timestamps. *)
Fixpoint newest_insert (m : Message) (l : list Message) : list Message :=
  match l with
  | [] => [m]
  | x :: rest => if createdAt x <=? createdAt m then m :: x :: rest
                 else x :: newest_insert m rest
  end.

Definition newestFirst (l : list Message) : list Message :=
  foldr newest_insert [] l.

(** All items of the [Messages] table stored under a conversation key. *)
Definition conversation (key : string) (w : World) : list Message :=
  filter (λ m, nicknameToNickname m = key) ((map_to_list (messages w)).*2).

(** The query of [handleGetMessages]: the items under the key, newest
    first, resumed after the start key when one is given, and cut at
    [Limit].  DynamoDB rejects a [Limit] below 1; the start key is
    interpreted by the store. *)
Definition queryMessages (env : Env) (key : string) (lim : Z)
    (start : option json) : M (list Message) :=
  λ w, if lim <? 1 then (Throw ValidationException, w)
       else
         let ordered := newestFirst (conversation key w) in
         let resumed := match start with
                        | Some k => exclusiveStart env k ordered
                        | None => ordered
                        end in
         (Ok (take (Z.to_nat lim) resumed), w).

Definition handleSendMessage (env : Env) (senderConnectionId : string)
    (b : SendMessageBody) : M Response :=
  let! senderClient := getClient senderConnectionId in
  match senderClient with
  | None => throw TypeError
  | Some sc =>
    let msg := {| messageId := v4 env;
                  createdAt := now env;
                  nicknameToNickname :=
                    getNicknameToNickname [nickname sc; recipientNickname b];
                  message := body_message b;
                  sender := nickname sc |} in
    do! putMessage msg in
    let! recipientConnectionId :=
      getConnectionIdByNickname (recipientNickname b) in
    do! match recipientConnectionId with
        | Some rc => if truthy rc
                     then postToConnection env rc (PMessage msg)
                     else ret false
        | None => ret false
        end in
    ret responseOk
  end.

Definition handleGetMessages (env : Env) (cid : string)
    (b : GetMessagesBody) : M Response :=
  let! client := getClient cid in
  match client with
  | None => throw TypeError
  | Some c =>
    let! msgs := queryMessages env
                   (getNicknameToNickname [nickname c; targetNickname b])
                   (limit b) (startKey b) in
    do! postToConnection env cid (PMessages msgs) in
    ret responseOk
  end.

(** ** Request parsing *)

(** Property read [v.name]; [None] is [undefined]. *)
Definition getProp (v : json) (name : string) : option json :=
  match v with
  | JObj fields => snd <$> List.find (λ kv, String.eqb (fst kv) name) fields
  | _ => None
  end.

(** [!v] for a parsed JSON value. *)
Definition falsy (v : json) : bool :=
  match v with
  | JNull | JBool false | JNum 0 | JStr "" => true
  | _ => false
  end.

(** [body || "{}"]. *)
Definition bodyOrEmptyObject (b : option string) : string :=
  match b with
  | Some s => if truthy s then s else "{}"
  | None => "{}"
  end.

Definition parseSendMessageBody (env : Env) (b : option string)
    : Outcome SendMessageBody :=
  match JSON_parse env (bodyOrEmptyObject b) with
  | None => Throw SyntaxError
  | Some v =>
    if falsy v then Throw (HandleError "Incorrect SendMessageBody format")
    else match getProp v "message", getProp v "recipientNickname" with
         | Some (JStr m), Some (JStr r) => Ok (mkSendMessageBody m r)
         | _, _ => Throw (HandleError "Incorrect SendMessageBody format")
         end
  end.

Definition parseGetMessagesBody (env : Env) (b : option string)
    : Outcome GetMessagesBody :=
  match JSON_parse env (bodyOrEmptyObject b) with
  | None => Throw SyntaxError
  | Some v =>
    if falsy v then Throw (HandleError "Incorrect GetMessages format")
    else match getProp v "targetNickname", getProp v "limit" with
         | Some (JStr t), Some (JNum l) =>
           Ok (mkGetMessagesBody t l (getProp v "startKey"))
         | _, _ => Throw (HandleError "Incorrect GetMessages format")
         end
  end.

(** ** Entry point *)

(** The [try] block of [handle] returns the handler's promise without
    awaiting it, so its [catch] sees only what is thrown while the
    arguments are evaluated: the exceptions of the two body parsers. *)
Definition catchParse {A} (env : Env) (cid : string) (parsed : Outcome A)
    (k : A → M Response) : M Response :=
  match parsed with
  | Ok b => k b
  | Throw (HandleError msg) =>
    do! postToConnection env cid (PError msg) in
    ret responseOk
  | Throw e => throw e
  end.

Definition handle (env : Env) (event : Event) : M Response :=
  let cid := ev_connectionId event in
  let rk := routeKey event in
  if String.eqb rk "$connect" then
    handleConnect env cid (queryStringParameters event)
  else if String.eqb rk "$disconnect" then
    handleDisconnect env cid
  else if String.eqb rk "getClients" then
    handleGetClients env cid
  else if String.eqb rk "sendMessage" then
    catchParse env cid (parseSendMessageBody env (ev_body event))
      (handleSendMessage env cid)
  else if String.eqb rk "getMessages" then
    catchParse env cid (parseGetMessagesBody env (ev_body event))
      (handleGetMessages env cid)
  else ret responseUnhandled.

(** Handling a sequence of events one at a time, each invocation with its
    own environment. *)
Definition run (evs : list (Env * Event)) (w : World) : World :=
  foldl (λ w ee, (handle ee.1 ee.2 w).2) w evs.

(** ** Sample environments and events *)

Definition dq : string := String "034"%char EmptyString.

(** The text of a well-formed [sendMessage] body. *)
Definition sendBodyText (msg recipient : string) : string :=
  "{" +:+ dq +:+ "message" +:+ dq +:+ ":" +:+ dq +:+ msg +:+ dq +:+ ","
      +:+ dq +:+ "recipientNickname" +:+ dq +:+ ":" +:+ dq +:+ recipient +:+ dq +:+ "}".

(** The text of a well-formed [getMessages] body with limit 10. *)
Definition historyBodyText (target : string) : string :=
  "{" +:+ dq +:+ "targetNickname" +:+ dq +:+ ":" +:+ dq +:+ target +:+ dq +:+ ","
      +:+ dq +:+ "limit" +:+ dq +:+ ":10}".

(** [JSON.parse] on the few texts used by the examples below. *)
Definition sampleParse (s : string) : option json :=
  if String.eqb s "{}" then Some (JObj [])
  else if String.eqb s (sendBodyText "hi" "bob")
  then Some (JObj [("message", JStr "hi"); ("recipientNickname", JStr "bob")])
  else if String.eqb s (historyBodyText "alice")
  then Some (JObj [("targetNickname", JStr "alice"); ("limit", JNum 10)])
  else if String.eqb s (historyBodyText "bob")
  then Some (JObj [("targetNickname", JStr "bob"); ("limit", JNum 10)])
  else None.

Definition sampleEnv (net : string → Payload → TransportResult) : Env :=
  mkEnv sampleParse net "m-1" 1000 (λ _ l, l) (λ _ _, 0%nat).

Definition allDelivered : string → Payload → TransportResult :=
  λ _ _, Delivered.

Definition connectEvent (cid nick : string) : Event :=
  mkEvent cid "$connect" (Some {["nickname" := nick]}) None.

Definition disconnectEvent (cid : string) : Event :=
  mkEvent cid "$disconnect" None None.

Definition sendEvent (cid : string) (text : string) : Event :=
  mkEvent cid "sendMessage" None (Some text).

Definition historyEvent (cid : string) (text : string) : Event :=
  mkEvent cid "getMessages" None (Some text).

Definition aliceAndBob : World :=
  run [(sampleEnv allDelivered, connectEvent "1" "alice");
       (sampleEnv allDelivered, connectEvent "2" "bob")] initialWorld.

(** ** Summaries used in the statements *)

(** The world after a list of effects, and the registry alone. *)
Definition performs (es : list Effect) (w : World) : World :=
  foldl applyEffect w es.

Definition replay (reg : gmap string string) (es : list Effect)
    : gmap string string :=
  foldl (λ r e, applyClients e r) reg es.

(** Every registry state passed through while [es] is performed, the
    starting one included. *)
Fixpoint timeline (reg : gmap string string) (es : list Effect)
    : list (gmap string string) :=
  reg :: match es with
         | [] => []
         | e :: rest => timeline (applyClients e reg) rest
         end.

(** The result of the [NicknameIndex] query: the first matching row. *)
Definition ownerOf (nick : string) (w : World) : option string :=
  connectionId <$> head (filter (λ c, nickname c = nick) (scanClients w)).

(** The stale-endpoint status. *)
Definition isGone (r : TransportResult) : bool :=
  bool_decide (r = Rejected (Some 410)).

(** The exception a transport result turns into, if any. *)
Definition faultOf (r : TransportResult) : option Exn :=
  match r with
  | Delivered => None
  | Rejected status =>
    if decide (status = Some 410) then None
    else Some (TransportError status)
  end.

Definition postEffects (env : Env) (data : Payload) (cid : string)
    : list Effect :=
  let r := apiGw env cid data in
  Post cid data r :: (if isGone r then [DeleteClient cid] else []).

Definition postOutcome (env : Env) (data : Payload) (cid : string)
    : Outcome bool :=
  match faultOf (apiGw env cid data) with
  | Some e => Throw e
  | None => Ok (negb (isGone (apiGw env cid data)))
  end.

(** The connections a roster broadcast is addressed to, the common
    payload, the effects of the broadcast and its first fault. *)
Definition notifyTargets (exclude : string) (w : World) : list string :=
  connectionId <$> filter (λ c, connectionId c ≠ exclude) (scanClients w).

Definition rosterOf (w : World) : Payload :=
  createClientsMessage (scanClients w).

(** The pushes of a broadcast, issued in array order. *)
Definition pushEffects (env : Env) (data : Payload) (targets : list string)
    : list Effect :=
  (λ c, Post c data (apiGw env c data)) <$> targets.

(** The order in which the promises of a broadcast settle. *)
Definition settleOrder (env : Env) (data : Payload) (targets : list string)
    : list string :=
  sortBy (λ c, arrival env c data) targets.

(** The connections evicted while the promises settle in a given order:
    every one that answered 410, up to the first other rejection. *)
Fixpoint evicted (env : Env) (data : Payload) (order : list string)
    : list string :=
  match order with
  | [] => []
  | c :: rest =>
    match apiGw env c data with
    | Delivered => evicted env data rest
    | Rejected status =>
      if decide (status = Some 410)
      then c :: evicted env data rest
      else []
    end
  end.

Definition evictions (env : Env) (data : Payload) (order : list string)
    : list Effect :=
  DeleteClient <$> evicted env data order.

Definition broadcastEffects (env : Env) (data : Payload)
    (targets : list string) : list Effect :=
  pushEffects env data targets
  ++ evictions env data (settleOrder env data targets).

(** The first fault in a list of connections, and the fault a broadcast
    is rejected with: the first one in settle order. *)
Definition firstFault (env : Env) (data : Payload) (targets : list string)
    : option Exn :=
  head (omap (λ c, faultOf (apiGw env c data)) targets).

Definition broadcastFault (env : Env) (data : Payload)
    (targets : list string) : option Exn :=
  firstFault env data (settleOrder env data targets).

Definition notifyEffects (env : Env) (exclude : string) (w : World)
    : list Effect :=
  broadcastEffects env (rosterOf w) (notifyTargets exclude w).

Definition notifyFault (env : Env) (exclude : string) (w : World)
    : option Exn :=
  broadcastFault env (rosterOf w) (notifyTargets exclude w).

(** The promise [notifyClients] leaves for one peer. *)
Definition peerPromise (env : Env) (data : Payload) (c : string)
    : Promise unit :=
  andThen
    (mkPromise (arrival env c data)
       match apiGw env c data with
       | Delivered => ret true
       | Rejected status =>
         if decide (status = Some 410)
         then do! deleteClient c in ret false
         else throw (TransportError status)
       end)
    (λ _, ret tt).

Definition outcomeOfFault {A} (f : option Exn) (a : A) : Outcome A :=
  match f with
  | Some e => Throw e
  | None => Ok a
  end.

(** The payloads pushed to one connection within a list of effects. *)
Definition pushesTo (cid : string) (es : list Effect) : list Payload :=
  omap (λ e, match e with
             | Post c data _ => if decide (c = cid) then Some data else None
             | _ => None
             end) es.

Definition isPutClient (e : Effect) : bool :=
  match e with PutClient _ => true | _ => false end.

(** At most one registry row per nickname. *)
Definition uniqueNicknames (reg : gmap string string) : Prop :=
  ∀ c1 c2 n, reg !! c1 = Some n → reg !! c2 = Some n → c1 = c2.

(** A registry as the gateway can produce it: unique nicknames, and no row
    keyed by the empty connection identifier. *)
Definition goodRegistry (reg : gmap string string) : Prop :=
  uniqueNicknames reg ∧ reg !! "" = None.

(** ** Further summaries and samples *)

Definition sentMessage (env : Env) (nick : string) (b : SendMessageBody)
    : Message :=
  {| messageId := v4 env;
     createdAt := now env;
     nicknameToNickname :=
       getNicknameToNickname [nick; recipientNickname b];
     message := body_message b;
     sender := nick |}.

(** The push of [handleSendMessage]: to the row found for the recipient
    nickname, when there is one with a non-empty identifier. *)
Definition recipientOf (b : SendMessageBody) (w : World) : option string :=
  match ownerOf (recipientNickname b) w with
  | Some rc => if truthy rc then Some rc else None
  | None => None
  end.

(** The page a history query reads. *)
Definition historyPage (env : Env) (nick : string) (b : GetMessagesBody)
    (w : World) : list Message :=
  let ordered :=
    newestFirst
      (conversation (getNicknameToNickname [nick; targetNickname b]) w) in
  take (Z.to_nat (limit b))
       match startKey b with
       | Some k => exclusiveStart env k ordered
       | None => ordered
       end.

Definition goneFor (cid : string) : string → Payload → TransportResult :=
  λ c _, if String.eqb c cid then Rejected (Some 410) else Delivered.

Definition failingFor (cid : string) : string → Payload → TransportResult :=
  λ c _, if String.eqb c cid then Rejected (Some 500) else Delivered.

(** A transport and settle times given by tables, for examples in which
    the pushes of a broadcast are answered out of array order. *)
Definition answers (table : list (string * TransportResult))
    : string → Payload → TransportResult :=
  λ c _, default Delivered
           (snd <$> List.find (λ kv, String.eqb kv.1 c) table).

Definition times (table : list (string * nat)) : string → Payload → nat :=
  λ c _, default 0%nat (snd <$> List.find (λ kv, String.eqb kv.1 c) table).

Definition timedEnv (net : string → Payload → TransportResult)
    (at_ : string → Payload → nat) : Env :=
  mkEnv sampleParse net "m-1" 1000 (λ _ l, l) at_.

(** The required fields of the two bodies, as the parsers test them. *)
Definition sendFields (v : json) : Prop :=
  ∃ m r, getProp v "message" = Some (JStr m)
         ∧ getProp v "recipientNickname" = Some (JStr r).

Definition historyFields (v : json) : Prop :=
  ∃ t l, getProp v "targetNickname" = Some (JStr t)
         ∧ getProp v "limit" = Some (JNum l).

(** The message of the error event for a route. *)
Definition formatError (rk : string) : string :=
  if String.eqb rk "sendMessage" then "Incorrect SendMessageBody format"
  else "Incorrect GetMessages format".

(** A computation that changes the world only through effects other than
    a registry put. *)
Definition quiet {A} (m : M A) : Prop :=
  ∀ w, ∃ es, (m w).2 = performs es w
             ∧ Forall (λ e, isPutClient e = false) es.

(** The registry is the replay of the trace, and every registry state the
    trace passes through is good. *)
Definition consistent (w : World) : Prop :=
  clients w = replay ∅ (trace w)
  ∧ Forall goodRegistry (timeline ∅ (trace w)).

(** ** Footprints and outcomes *)

(** The nickname a connect request claims. *)
Definition claimedNickname (event : Event) : option string :=
  queryStringParameters event ≫= (λ q, q !! "nickname").

(** The lists of effects one invocation can perform: pushes through the
    gateway, each followed by the eviction it may cause, broadcasts with
    the evictions of some of the peers that answered 410, the delete of a
    disconnect, the put of a connect and the put of a send, in any
    number and order. *)
Inductive footprint (env : Env) (event : Event) : list Effect → Prop :=
| fp_nil : footprint env event []
| fp_app es1 es2 :
    footprint env event es1 → footprint env event es2 →
    footprint env event (es1 ++ es2)
| fp_post data cid : footprint env event (postEffects env data cid)
| fp_broadcast data targets evicted :
    (∀ c, c ∈ evicted →
          c ∈ targets ∧ apiGw env c data = Rejected (Some 410)) →
    footprint env event
      (pushEffects env data targets ++ (DeleteClient <$> evicted))
| fp_disconnect :
    routeKey event = "$disconnect" →
    footprint env event [DeleteClient (ev_connectionId event)]
| fp_connect nick :
    routeKey event = "$connect" → claimedNickname event = Some nick →
    footprint env event [PutClient (mkClient (ev_connectionId event) nick)]
| fp_send nick b :
    routeKey event = "sendMessage" →
    parseSendMessageBody env (ev_body event) = Ok b →
    footprint env event [PutMessage (sentMessage env nick b)].

(** A computation whose effects lie in a class of effect lists. *)
Definition effectsSat {A} (Q : list Effect → Prop) (m : M A) : Prop :=
  ∀ w, ∃ es, (m w).2 = performs es w ∧ Q es.

(** A computation whose results lie in [P] and whose exceptions lie in
    [E]. *)
Definition outcomeIn {A} (P : A → Prop) (E : Exn → Prop) (m : M A) : Prop :=
  ∀ w, match (m w).1 with
       | Ok a => P a
       | Throw e => E e
       end.

(** A transport error other than the stale-endpoint one. *)
Definition transportFault (e : Exn) : Prop :=
  ∃ status, e = TransportError status ∧ status ≠ Some 410.

(** The five route keys [handle] dispatches on. *)
Definition knownRoute (rk : string) : Prop :=
  rk = "$connect" ∨ rk = "$disconnect" ∨ rk = "getClients"
  ∨ rk = "sendMessage" ∨ rk = "getMessages".

(** A string without the separator of conversation keys. *)
Fixpoint hashFree (s : string) : bool :=
  match s with
  | EmptyString => true
  | String c rest => negb (Ascii.eqb c "#") && hashFree rest
  end.

(** ** Basic facts about effects *)

Lemma performs_app es1 es2 w :
  performs (es1 ++ es2) w = performs es2 (performs es1 w).
Proof. unfold performs. apply foldl_app. Qed.

Lemma performs_cons e es w :
  performs (e :: es) w = performs es (applyEffect w e).
Proof. reflexivity. Qed.

Lemma trace_performs es w : trace (performs es w) = trace w ++ es.
Proof.
  revert w. induction es as [|e es IH]; intros w; simpl.
  - by rewrite app_nil_r.
  - rewrite IH. simpl. by rewrite <- app_assoc.
Qed.

Lemma clients_performs es w :
  clients (performs es w) = replay (clients w) es.
Proof.
  revert w. induction es as [|e es IH]; intros w; simpl; [done|].
  by rewrite IH.
Qed.

Lemma replay_app reg es1 es2 :
  replay reg (es1 ++ es2) = replay (replay reg es1) es2.
Proof. unfold replay. apply foldl_app. Qed.

Lemma messages_performs_no_put es w :
  Forall (λ e, ∀ m, e ≠ PutMessage m) es →
  messages (performs es w) = messages w.
Proof.
  revert w. induction es as [|e es IH]; intros w Hes; simpl; [done|].
  inversion Hes as [|? ? He Hrest]; subst.
  rewrite IH by done. destruct e; simpl; try done. by destruct (He m).
Qed.

Lemma timeline_app reg es1 es2 P :
  Forall P (timeline reg (es1 ++ es2)) ↔
  Forall P (timeline reg es1) ∧ Forall P (timeline (replay reg es1) es2).
Proof.
  revert reg. induction es1 as [|e es1 IH]; intros reg; simpl.
  - split.
    + intros H. split; [|done]. destruct es2; simpl in *.
      * done.
      * inversion H; subst. by repeat constructor.
    + by intros [_ H].
  - rewrite !Forall_cons, IH. tauto.
Qed.

Lemma timeline_last reg es P :
  Forall P (timeline reg es) → P (replay reg es).
Proof.
  revert reg. induction es as [|e es IH]; intros reg H; simpl in *.
  - by inversion H.
  - apply IH. by inversion H.
Qed.

(** ** The monad on explicit worlds *)

Lemma bind_ok {A B} (m : M A) (k : A → M B) w a w' :
  m w = (Ok a, w') → bind m k w = k a w'.
Proof. unfold bind. by intros ->. Qed.

Lemma bind_throw {A B} (m : M A) (k : A → M B) w e w' :
  m w = (Throw e, w') → bind m k w = (Throw e, w').
Proof. unfold bind. by intros ->. Qed.

(** ** The delivery gateway on explicit worlds *)

Lemma postToConnection_eq env cid data w :
  postToConnection env cid data w =
  (postOutcome env data cid, performs (postEffects env data cid) w).
Proof.
  unfold postToConnection, postToConnection_async, await.
  unfold postOutcome, postEffects, faultOf, isGone.
  unfold bind, perform, deleteClient, perform, ret, throw. cbn.
  destruct (apiGw env cid data) as [|status]; simpl; [done|].
  case_bool_decide as Hg; destruct (decide (status = Some 410)) as [->|Hne];
    simpl; congruence.
Qed.

(** ** The join on explicit worlds *)

Lemma insertBy_fmap {A B} (key : B → nat) (f : A → B) x l :
  insertBy key (f x) (f <$> l) = f <$> insertBy (λ y, key (f y)) x l.
Proof.
  induction l as [|y l IH]; [done|].
  rewrite fmap_cons. cbn [insertBy].
  destruct (key (f x) <=? key (f y))%nat; [done|].
  by rewrite IH.
Qed.

Lemma sortBy_fmap {A B} (key : B → nat) (f : A → B) l :
  sortBy key (f <$> l) = f <$> sortBy (λ y, key (f y)) l.
Proof.
  unfold sortBy. induction l as [|x l IH]; [done|].
  rewrite fmap_cons. cbn [foldr]. by rewrite IH, insertBy_fmap.
Qed.

Lemma elem_of_insertBy {A} (key : A → nat) x y l :
  y ∈ insertBy key x l ↔ y = x ∨ y ∈ l.
Proof.
  induction l as [|z l IH]; cbn [insertBy].
  - rewrite list_elem_of_singleton. split; [by left|].
    intros [?|H]; [done|]. by apply elem_of_nil in H.
  - destruct (key x <=? key z)%nat.
    + by rewrite elem_of_cons.
    + rewrite !elem_of_cons, IH. tauto.
Qed.

Lemma elem_of_sortBy {A} (key : A → nat) y l : y ∈ sortBy key l ↔ y ∈ l.
Proof.
  unfold sortBy. induction l as [|x l IH]; [done|].
  cbn [foldr]. by rewrite elem_of_insertBy, IH, elem_of_cons.
Qed.

Lemma elem_of_settleOrder env data targets c :
  c ∈ settleOrder env data targets ↔ c ∈ targets.
Proof. apply elem_of_sortBy. Qed.

Lemma imap_pair_snd {A} (g : nat → nat) (l : list A) :
  (imap (λ n x, (g n, x)) l).*2 = l.
Proof.
  revert g. induction l as [|x l IH]; intros g; [done|].
  cbn [imap]. rewrite fmap_cons. f_equal. apply (IH (g ∘ S)).
Qed.

Lemma startAll_peers env data targets w :
  startAll ((λ c, let! p := postToConnection_async env c data in
                  ret (andThen p (λ _, ret tt))) <$> targets) w =
  (Ok (peerPromise env data <$> targets),
   performs (pushEffects env data targets) w).
Proof.
  revert w. induction targets as [|c targets IH]; intros w; [done|].
  rewrite !fmap_cons. cbn [startAll].
  rewrite (bind_ok _ _ w (peerPromise env data c)
             (applyEffect w (Post c data (apiGw env c data)))) by done.
  rewrite (bind_ok _ _ _ _ _ (IH _)). done.
Qed.

Lemma settleAll_peers env data (l : list (nat * string)) w :
  ∃ rs, settleAll (prod_map id (peerPromise env data) <$> l) w =
        (outcomeOfFault (firstFault env data l.*2) rs,
         performs (evictions env data l.*2) w).
Proof.
  revert w. induction l as [|[i c] l IH]; intros w; [by exists []|].
  rewrite !fmap_cons. cbn [settleAll prod_map fst snd id].
  unfold evictions, firstFault. cbn [evicted omap list_omap].
  unfold peerPromise at 1, andThen, await, faultOf. cbn [continuation].
  destruct (apiGw env c data) as [|status].
  - destruct (IH w) as [rs Hrs]. unfold bind at 1 2. cbn.
    unfold bind. rewrite Hrs. unfold evictions, firstFault.
    destruct (head _); cbn; eauto.
  - destruct (decide (status = Some 410)) as [->|Hst].
    + destruct (IH (applyEffect w (DeleteClient c))) as [rs Hrs].
      unfold bind at 1 2 3. cbn. unfold bind. rewrite Hrs.
      unfold evictions, firstFault. destruct (head _); cbn; eauto.
    + exists []. done.
Qed.

Lemma promiseAll_peers env data targets w :
  ∃ rs, promiseAll (peerPromise env data <$> targets) w =
        (outcomeOfFault (broadcastFault env data targets) rs,
         performs (evictions env data (settleOrder env data targets)) w).
Proof.
  unfold promiseAll.
  assert (imap pair (peerPromise env data <$> targets)
          = prod_map id (peerPromise env data) <$> imap pair targets) as ->.
  { rewrite imap_fmap, fmap_imap. done. }
  rewrite (sortBy_fmap (λ ip : nat * Promise unit, settledAt ip.2)).
  match goal with
  | |- context [sortBy ?k (imap pair targets)] =>
    change k with (λ ic : nat * string, arrival env ic.2 data)
  end.
  destruct (settleAll_peers env data
              (sortBy (λ ic : nat * string, arrival env ic.2 data)
                 (imap pair targets)) w) as [rs Hrs].
  assert ((sortBy (λ ic : nat * string, arrival env ic.2 data)
             (imap pair targets)).*2 = settleOrder env data targets) as Hord.
  { unfold settleOrder.
    rewrite <- (sortBy_fmap (λ c, arrival env c data) snd).
    f_equal. apply (imap_pair_snd id). }
  rewrite Hord in Hrs. unfold bind. rewrite Hrs.
  unfold broadcastFault. destruct (firstFault _ _ _); cbn; [by exists []|].
  eauto.
Qed.

Lemma notifyClients_eq env exclude w :
  notifyClients env exclude w =
  (outcomeOfFault (notifyFault env exclude w) tt,
   performs (notifyEffects env exclude w) w).
Proof.
  unfold notifyFault, notifyEffects, broadcastEffects, notifyTargets, rosterOf.
  rewrite performs_app.
  unfold notifyClients, getAllClients. unfold bind at 1.
  set (data := createClientsMessage (scanClients w)).
  set (peers := filter (λ c, connectionId c ≠ exclude) (scanClients w)).
  pose proof (startAll_peers env data (connectionId <$> peers) w) as Hstart.
  rewrite <- list_fmap_compose in Hstart.
  rewrite (bind_ok _ _ _ _ _ Hstart).
  destruct (promiseAll_peers env data (connectionId <$> peers)
              (performs (pushEffects env data (connectionId <$> peers)) w))
    as [rs Hrs].
  unfold bind. rewrite Hrs. by destruct (broadcastFault _ _ _).
Qed.

(** ** The registry and its secondary index *)

Lemma elem_of_scanClients c w :
  c ∈ scanClients w ↔ clients w !! connectionId c = Some (nickname c).
Proof.
  unfold scanClients. rewrite list_elem_of_fmap. split.
  - intros [[k v] [-> Hin]]. by apply elem_of_map_to_list.
  - intros H. exists (connectionId c, nickname c). split.
    + by destruct c.
    + by apply elem_of_map_to_list.
Qed.

Lemma scanClients_ids w :
  connectionId <$> scanClients w = (map_to_list (clients w)).*1.
Proof.
  unfold scanClients. rewrite <- list_fmap_compose.
  by apply list_fmap_ext.
Qed.

Lemma NoDup_scanClients_ids w : NoDup (connectionId <$> scanClients w).
Proof. rewrite scanClients_ids. apply NoDup_fst_map_to_list. Qed.

Lemma NoDup_filter_fmap {A B} (f : A → B) (P : A → Prop)
    `{∀ x, Decision (P x)} (l : list A) :
  NoDup (f <$> l) → NoDup (f <$> filter P l).
Proof.
  induction l as [|x l IH]; simpl; [done|].
  rewrite NoDup_cons. intros [Hx Hl].
  rewrite filter_cons. destruct (decide (P x)); [|by apply IH].
  rewrite fmap_cons. apply NoDup_cons. split; [|by apply IH].
  intros Hin. apply Hx. apply list_elem_of_fmap in Hin as [y [-> Hy]].
  apply list_elem_of_fmap. exists y. split; [done|].
  by apply list_elem_of_filter in Hy as [_ ?].
Qed.

Lemma NoDup_notifyTargets exclude w : NoDup (notifyTargets exclude w).
Proof. apply NoDup_filter_fmap, NoDup_scanClients_ids. Qed.

Lemma elem_of_notifyTargets exclude w c :
  c ∈ notifyTargets exclude w ↔ c ≠ exclude ∧ is_Some (clients w !! c).
Proof.
  unfold notifyTargets. rewrite list_elem_of_fmap. split.
  - intros [cl [-> Hin]]. apply list_elem_of_filter in Hin as [Hne Hin].
    apply elem_of_scanClients in Hin. eauto.
  - intros [Hne [n Hn]]. exists (mkClient c n). split; [done|].
    apply list_elem_of_filter. split; [done|]. by apply elem_of_scanClients.
Qed.

Lemma getConnectionIdByNickname_eq nick w :
  getConnectionIdByNickname nick w = (Ok (ownerOf nick w), w).
Proof. reflexivity. Qed.

Lemma ownerOf_None nick w :
  ownerOf nick w = None ↔ ∀ c, clients w !! c ≠ Some nick.
Proof.
  unfold ownerOf. rewrite fmap_None, head_None. split.
  - intros Hnil c Hc.
    eapply (filter_nil_not_elem_of _ _ (mkClient c nick)); [done|done|].
    by apply elem_of_scanClients.
  - intros Hno. destruct (filter _ _) as [|cl l] eqn:Hf; [done|].
    assert (cl ∈ filter (λ c, nickname c = nick) (scanClients w)) as Hin
      by (rewrite Hf; left).
    apply list_elem_of_filter in Hin as [Hn Hin].
    apply elem_of_scanClients in Hin. rewrite Hn in Hin. by destruct (Hno _ Hin).
Qed.

Lemma ownerOf_Some nick w ex :
  ownerOf nick w = Some ex → clients w !! ex = Some nick.
Proof.
  unfold ownerOf. intros H. apply fmap_Some in H as [cl [Hh ->]].
  apply head_Some_elem_of in Hh.
  apply list_elem_of_filter in Hh as [Hn Hin].
  apply elem_of_scanClients in Hin. by rewrite Hn in Hin.
Qed.

Lemma ownerOf_unique nick w ex :
  uniqueNicknames (clients w) → clients w !! ex = Some nick →
  ownerOf nick w = Some ex.
Proof.
  intros Hu Hex. destruct (ownerOf nick w) as [c|] eqn:Ho.
  - apply ownerOf_Some in Ho. f_equal. by eapply Hu.
  - rewrite ownerOf_None in Ho. by destruct (Ho ex).
Qed.

(** ** Registries with unique nicknames *)

Lemma goodRegistry_empty : goodRegistry ∅.
Proof. split; [|done]. intros c1 c2 n H. by rewrite lookup_empty in H. Qed.

Lemma goodRegistry_delete reg cid :
  goodRegistry reg → goodRegistry (delete cid reg).
Proof.
  intros [Hu He]. split.
  - intros c1 c2 n H1 H2.
    apply lookup_delete_Some in H1 as [_ H1].
    apply lookup_delete_Some in H2 as [_ H2]. by eapply Hu.
  - apply lookup_delete_None. by right.
Qed.

Lemma goodRegistry_insert reg cid nick :
  goodRegistry reg → cid ≠ "" →
  (∀ c, reg !! c = Some nick → c = cid) →
  goodRegistry (<[cid := nick]> reg).
Proof.
  intros [Hu He] Hne Hfree. split.
  - intros c1 c2 n H1 H2.
    apply lookup_insert_Some in H1 as [[<- <-]|[Hc1 H1]];
      apply lookup_insert_Some in H2 as [[<- Hn]|[Hc2 H2]]; subst.
    + done.
    + symmetry. by apply Hfree.
    + by apply Hfree.
    + by eapply Hu.
  - by rewrite lookup_insert_ne.
Qed.

Lemma goodRegistry_apply reg e :
  goodRegistry reg → isPutClient e = false →
  goodRegistry (applyClients e reg).
Proof.
  intros Hg He. destruct e; simpl in *; try done.
  by apply goodRegistry_delete.
Qed.

Lemma timeline_good_no_put reg es :
  goodRegistry reg → Forall (λ e, isPutClient e = false) es →
  Forall goodRegistry (timeline reg es).
Proof.
  revert reg. induction es as [|e es IH]; intros reg Hg Hes; simpl.
  - by constructor.
  - inversion Hes; subst. constructor; [done|].
    apply IH; [|done]. by apply goodRegistry_apply.
Qed.

Lemma postEffects_no_put env data cid :
  Forall (λ e, isPutClient e = false) (postEffects env data cid).
Proof.
  unfold postEffects. destruct (isGone _); by repeat constructor.
Qed.

Lemma broadcastEffects_no_put env data targets :
  Forall (λ e, isPutClient e = false) (broadcastEffects env data targets).
Proof.
  unfold broadcastEffects, pushEffects, evictions. apply Forall_app.
  split; apply Forall_fmap, Forall_true; done.
Qed.

Lemma postEffects_no_message env data cid :
  Forall (λ e, ∀ m, e ≠ PutMessage m) (postEffects env data cid).
Proof.
  unfold postEffects. destruct (isGone _); by repeat constructor.
Qed.

Lemma broadcastEffects_no_message env data targets :
  Forall (λ e, ∀ m, e ≠ PutMessage m) (broadcastEffects env data targets).
Proof.
  unfold broadcastEffects, pushEffects, evictions. apply Forall_app.
  split; apply Forall_fmap, Forall_true; done.
Qed.

(** ** The presence coordinator on explicit worlds *)

Lemma truthy_true s : truthy s = true ↔ s ≠ "".
Proof.
  unfold truthy. rewrite negb_true_iff. split.
  - intros H ->. by rewrite String.eqb_refl in H.
  - intros H. by apply String.eqb_neq.
Qed.

Lemma after_notify {A} env exclude (a : A) w :
  bind (notifyClients env exclude) (λ _, ret a) w =
  (outcomeOfFault (notifyFault env exclude w) a,
   performs (notifyEffects env exclude w) w).
Proof.
  unfold bind. rewrite notifyClients_eq. by destruct (notifyFault _ _ _).
Qed.

Lemma handleDisconnect_eq env cid w :
  handleDisconnect env cid w =
  let w1 := applyEffect w (DeleteClient cid) in
  (outcomeOfFault (notifyFault env cid w1)
     responseOk,
   performs (notifyEffects env cid w1) w1).
Proof.
  unfold handleDisconnect.
  rewrite (bind_ok _ _ w tt (applyEffect w (DeleteClient cid))) by done.
  apply after_notify.
Qed.

Lemma handleConnect_free env cid q nick w :
  q !! "nickname" = Some nick → nick ≠ "" → ownerOf nick w = None →
  handleConnect env cid (Some q) w =
  let w1 := applyEffect w (PutClient (mkClient cid nick)) in
  (outcomeOfFault (notifyFault env cid w1)
     responseOk,
   performs (notifyEffects env cid w1) w1).
Proof.
  intros Hq Hn Ho. unfold handleConnect. rewrite Hq.
  apply truthy_true in Hn. rewrite Hn.
  rewrite (bind_ok _ _ w None w)
    by (by rewrite getConnectionIdByNickname_eq, Ho).
  rewrite (bind_ok _ _ w false w) by done.
  rewrite (bind_ok _ _ w tt (applyEffect w (PutClient (mkClient cid nick))))
    by done.
  apply after_notify.
Qed.

Lemma handleConnect_stale env cid q nick ex w :
  q !! "nickname" = Some nick → nick ≠ "" →
  ownerOf nick w = Some ex → ex ≠ "" →
  apiGw env ex PPing = Rejected (Some 410) →
  handleConnect env cid (Some q) w =
  let w1 := performs [Post ex PPing (Rejected (Some 410)); DeleteClient ex;
                      PutClient (mkClient cid nick)] w in
  (outcomeOfFault (notifyFault env cid w1)
     responseOk,
   performs (notifyEffects env cid w1) w1).
Proof.
  intros Hq Hn Ho Hex Hgone. unfold handleConnect. rewrite Hq.
  apply truthy_true in Hn, Hex. rewrite Hn.
  rewrite (bind_ok _ _ w (Some ex) w)
    by (by rewrite getConnectionIdByNickname_eq, Ho).
  rewrite Hex.
  rewrite (bind_ok _ _ w false
             (performs [Post ex PPing (Rejected (Some 410)); DeleteClient ex] w)).
  2: { rewrite postToConnection_eq. unfold postOutcome, postEffects.
       by rewrite Hgone. }
  rewrite (bind_ok _ _ _ tt
             (performs [Post ex PPing (Rejected (Some 410)); DeleteClient ex;
                        PutClient (mkClient cid nick)] w)) by done.
  apply after_notify.
Qed.

Lemma handleConnect_taken env cid q nick ex w :
  q !! "nickname" = Some nick → nick ≠ "" →
  ownerOf nick w = Some ex → ex ≠ "" →
  apiGw env ex PPing = Delivered →
  handleConnect env cid (Some q) w =
  (Ok responseForbidden, applyEffect w (Post ex PPing Delivered)).
Proof.
  intros Hq Hn Ho Hex Hdel. unfold handleConnect. rewrite Hq.
  apply truthy_true in Hn, Hex. rewrite Hn.
  rewrite (bind_ok _ _ w (Some ex) w)
    by (by rewrite getConnectionIdByNickname_eq, Ho).
  rewrite Hex.
  rewrite (bind_ok _ _ w true (applyEffect w (Post ex PPing Delivered))).
  2: { rewrite postToConnection_eq. unfold postOutcome, postEffects.
       by rewrite Hdel. }
  done.
Qed.

Lemma handleConnect_probe_fault env cid q nick ex status w :
  q !! "nickname" = Some nick → nick ≠ "" →
  ownerOf nick w = Some ex → ex ≠ "" →
  apiGw env ex PPing = Rejected status → status ≠ Some 410 →
  handleConnect env cid (Some q) w =
  (Throw (TransportError status),
   applyEffect w (Post ex PPing (Rejected status))).
Proof.
  intros Hq Hn Ho Hex Hrej Hst. unfold handleConnect. rewrite Hq.
  apply truthy_true in Hn, Hex. rewrite Hn.
  rewrite (bind_ok _ _ w (Some ex) w)
    by (by rewrite getConnectionIdByNickname_eq, Ho).
  rewrite Hex.
  apply bind_throw. rewrite postToConnection_eq.
  unfold postOutcome, postEffects, faultOf, isGone. rewrite Hrej.
  rewrite decide_False by done.
  rewrite bool_decide_eq_false_2 by congruence. done.
Qed.

(** ** The registry after a broadcast *)

Lemma replay_postEffects env data cid reg c :
  replay reg (postEffects env data cid) !! c =
  if decide (c = cid ∧ isGone (apiGw env cid data) = true) then None
  else reg !! c.
Proof.
  unfold postEffects. destruct (isGone _) eqn:Hg; simpl.
  - destruct (decide (c = cid)) as [->|Hne].
    + rewrite decide_True by done. apply lookup_delete_eq.
    + rewrite decide_False by tauto. by apply lookup_delete_ne.
  - rewrite decide_False; [done|]. intros [_ ?]. done.
Qed.

Lemma replay_pushEffects env data targets reg :
  replay reg (pushEffects env data targets) = reg.
Proof.
  unfold pushEffects. revert reg.
  induction targets as [|t targets IH]; intros reg; [done|].
  rewrite fmap_cons. apply IH.
Qed.

Lemma replay_deletes (l : list string) reg c :
  replay reg (DeleteClient <$> l) !! c =
  if decide (c ∈ l) then None else reg !! c.
Proof.
  revert reg. induction l as [|t l IH]; intros reg.
  - rewrite decide_False; [done|]. apply not_elem_of_nil.
  - rewrite fmap_cons. cbn [replay foldl applyClients].
    change (foldl _ ?r ?es) with (replay r es). rewrite IH.
    destruct (decide (c ∈ l)) as [Hin|Hnin].
    + rewrite decide_True; [done|by right].
    + destruct (decide (c = t)) as [->|Hne].
      * rewrite decide_True by left. apply lookup_delete_eq.
      * rewrite decide_False, lookup_delete_ne; [done|done|].
        intros H. apply elem_of_cons in H as [?|?]; done.
Qed.

Lemma elem_of_evicted env data order c :
  c ∈ evicted env data order →
  c ∈ order ∧ apiGw env c data = Rejected (Some 410).
Proof.
  induction order as [|t order IH]; cbn [evicted].
  - intros H. by apply elem_of_nil in H.
  - destruct (apiGw env t data) as [|status] eqn:Ht.
    + intros H. destruct (IH H). split; [by right|done].
    + destruct (decide (status = Some 410)) as [->|Hst].
      * intros H. apply elem_of_cons in H as [->|H].
        -- split; [by left|done].
        -- destruct (IH H). split; [by right|done].
      * intros H. by apply elem_of_nil in H.
Qed.

Lemma evicted_complete env data order c :
  firstFault env data order = None →
  c ∈ order → apiGw env c data = Rejected (Some 410) →
  c ∈ evicted env data order.
Proof.
  unfold firstFault.
  induction order as [|t order IH]; cbn [evicted omap list_omap].
  - intros _ H. by apply elem_of_nil in H.
  - unfold faultOf at 1. destruct (apiGw env t data) as [|status] eqn:Ht.
    + intros Hf Hin Hg. apply elem_of_cons in Hin as [->|Hin]; [congruence|].
      by apply IH.
    + destruct (decide (status = Some 410)) as [->|Hst]; [|done].
      intros Hf Hin Hg. apply elem_of_cons in Hin as [->|Hin]; [by left|].
      right. by apply IH.
Qed.

(** After a broadcast a row is as before, unless its connection was
    evicted. *)
Lemma replay_broadcastEffects env data targets reg c :
  replay reg (broadcastEffects env data targets) !! c =
  if decide (c ∈ evicted env data (settleOrder env data targets))
  then None else reg !! c.
Proof.
  unfold broadcastEffects, evictions.
  by rewrite replay_app, replay_pushEffects, replay_deletes.
Qed.

Lemma evicted_target env data targets c :
  c ∈ evicted env data (settleOrder env data targets) →
  c ∈ targets ∧ apiGw env c data = Rejected (Some 410).
Proof.
  intros H. apply elem_of_evicted in H as [Hin Hg].
  by apply elem_of_settleOrder in Hin.
Qed.

Lemma pushesTo_app cid es1 es2 :
  pushesTo cid (es1 ++ es2) = pushesTo cid es1 ++ pushesTo cid es2.
Proof. unfold pushesTo. apply omap_app. Qed.

Lemma pushesTo_postEffects env data cid c :
  pushesTo c (postEffects env data cid) =
  if decide (c = cid) then [data] else [].
Proof.
  unfold postEffects, pushesTo. simpl.
  destruct (decide (cid = c)) as [->|Hne].
  - rewrite decide_True by done. by destruct (isGone _).
  - rewrite decide_False by done. by destruct (isGone _).
Qed.

Lemma pushesTo_pushEffects env data targets c :
  NoDup targets →
  pushesTo c (pushEffects env data targets) =
  if decide (c ∈ targets) then [data] else [].
Proof.
  unfold pushEffects. induction targets as [|t targets IH]; intros Hnd.
  - rewrite decide_False; [done|]. apply not_elem_of_nil.
  - apply NoDup_cons in Hnd as [Ht Hnd]. rewrite fmap_cons.
    change (pushesTo c (?e :: ?es)) with (pushesTo c ([e] ++ es)).
    rewrite pushesTo_app, IH by done. unfold pushesTo. cbn.
    destruct (decide (t = c)) as [->|Hne].
    + rewrite decide_False by done. rewrite decide_True; [done|by left].
    + destruct (decide (c ∈ targets)) as [Hin|Hnin]; simpl.
      * rewrite decide_True; [done|by right].
      * rewrite decide_False; [done|].
        intros H. apply elem_of_cons in H as [?|?]; done.
Qed.

Lemma pushesTo_deletes c (l : list string) :
  pushesTo c (DeleteClient <$> l) = [].
Proof. unfold pushesTo. induction l as [|t l IH]; [done|]. by rewrite fmap_cons. Qed.

Lemma pushesTo_broadcastEffects env data targets c :
  NoDup targets →
  pushesTo c (broadcastEffects env data targets) =
  if decide (c ∈ targets) then [data] else [].
Proof.
  intros Hnd. unfold broadcastEffects, evictions.
  rewrite pushesTo_app, pushesTo_deletes, app_nil_r.
  by apply pushesTo_pushEffects.
Qed.

(** ** The router and the entry point on explicit worlds *)

Lemma ownerOf_clients nick w w' :
  clients w' = clients w → ownerOf nick w' = ownerOf nick w.
Proof. unfold ownerOf, scanClients. by intros ->. Qed.

Lemma handleSendMessage_unregistered env cid b w :
  clients w !! cid = None →
  handleSendMessage env cid b w = (Throw TypeError, w).
Proof.
  intros Hc. unfold handleSendMessage.
  rewrite (bind_ok _ _ w None w); [done|].
  unfold getClient. by rewrite Hc.
Qed.

Lemma handleSendMessage_eq env cid b nick w :
  clients w !! cid = Some nick →
  handleSendMessage env cid b w =
  let msg := sentMessage env nick b in
  let w1 := applyEffect w (PutMessage msg) in
  match recipientOf b w with
  | Some rc =>
    (outcomeOfFault (faultOf (apiGw env rc (PMessage msg))) responseOk,
     performs (postEffects env (PMessage msg) rc) w1)
  | None => (Ok responseOk, w1)
  end.
Proof.
  intros Hc. unfold handleSendMessage.
  rewrite (bind_ok _ _ w (Some (mkClient cid nick)) w)
    by (unfold getClient; by rewrite Hc).
  cbn [nickname]. fold (sentMessage env nick b).
  rewrite (bind_ok _ _ w tt (applyEffect w (PutMessage (sentMessage env nick b))))
    by done.
  set (w1 := applyEffect w (PutMessage (sentMessage env nick b))).
  rewrite (bind_ok _ _ w1 (ownerOf (recipientNickname b) w) w1)
    by (rewrite getConnectionIdByNickname_eq; f_equal; f_equal;
        by apply ownerOf_clients).
  unfold recipientOf. cbn zeta.
  destruct (ownerOf (recipientNickname b) w) as [rc|]; [|done].
  destruct (truthy rc); [|done].
  unfold bind. rewrite postToConnection_eq. unfold postOutcome.
  by destruct (faultOf _).
Qed.

Lemma handleGetMessages_unregistered env cid b w :
  clients w !! cid = None →
  handleGetMessages env cid b w = (Throw TypeError, w).
Proof.
  intros Hc. unfold handleGetMessages.
  rewrite (bind_ok _ _ w None w); [done|].
  unfold getClient. by rewrite Hc.
Qed.

Lemma handleGetMessages_eq env cid b nick w :
  clients w !! cid = Some nick → 1 ≤ limit b →
  handleGetMessages env cid b w =
  let page := PMessages (historyPage env nick b w) in
  (outcomeOfFault (faultOf (apiGw env cid page)) responseOk,
   performs (postEffects env page cid) w).
Proof.
  intros Hc Hl. unfold handleGetMessages.
  rewrite (bind_ok _ _ w (Some (mkClient cid nick)) w)
    by (unfold getClient; by rewrite Hc).
  cbn [nickname].
  rewrite (bind_ok _ _ w (historyPage env nick b w) w).
  2: { unfold queryMessages. destruct (Z.ltb_spec (limit b) 1); [lia|].
       done. }
  cbn zeta. unfold bind. rewrite postToConnection_eq. unfold postOutcome.
  by destruct (faultOf _).
Qed.

Lemma catchParse_error {A} env cid msg (k : A → M Response) w :
  catchParse env cid (Throw (HandleError msg)) k w =
  (outcomeOfFault (faultOf (apiGw env cid (PError msg))) responseOk,
   performs (postEffects env (PError msg) cid) w).
Proof.
  unfold catchParse, bind. rewrite postToConnection_eq. unfold postOutcome.
  by destruct (faultOf _).
Qed.

Lemma handle_connect env event w :
  routeKey event = "$connect" →
  handle env event w =
  handleConnect env (ev_connectionId event) (queryStringParameters event) w.
Proof. unfold handle. by intros ->. Qed.

Lemma handle_disconnect env event w :
  routeKey event = "$disconnect" →
  handle env event w = handleDisconnect env (ev_connectionId event) w.
Proof. unfold handle. by intros ->. Qed.

Lemma handle_sendMessage env event w :
  routeKey event = "sendMessage" →
  handle env event w =
  catchParse env (ev_connectionId event)
    (parseSendMessageBody env (ev_body event))
    (handleSendMessage env (ev_connectionId event)) w.
Proof. unfold handle. by intros ->. Qed.

Lemma handle_getMessages env event w :
  routeKey event = "getMessages" →
  handle env event w =
  catchParse env (ev_connectionId event)
    (parseGetMessagesBody env (ev_body event))
    (handleGetMessages env (ev_connectionId event)) w.
Proof. unfold handle. by intros ->. Qed.

(** ** Sample transports and worlds *)

Lemma aliceAndBob_clients :
  clients aliceAndBob = <["2" := "bob"]> (<["1" := "alice"]> ∅).
Proof. vm_compute. reflexivity. Qed.

Lemma aliceAndBob_good : goodRegistry (clients aliceAndBob).
Proof.
  rewrite aliceAndBob_clients.
  apply goodRegistry_insert; [|done|].
  - apply goodRegistry_insert; [apply goodRegistry_empty|done|].
    intros c H. by rewrite lookup_empty in H.
  - intros c H. apply lookup_insert_Some in H as [[_ H]|[_ H]]; [done|].
    by rewrite lookup_empty in H.
Qed.

(** ** Delivery gateway: eviction on Gone *)

(** C2: a push rejected with status 410 deletes the registry row of that
    connection before it returns, and returns [false]; a push rejected with
    any other status throws the transport error and leaves the registry as
    it was; after a deletion caused by 410 the nickname of the deleted row
    is no longer found, in a registry whose nicknames are unique. *)
Theorem postToConnection_gone_evicts env cid data w :
  (apiGw env cid data = Rejected (Some 410) →
   postToConnection env cid data w =
     (Ok false,
      performs [Post cid data (Rejected (Some 410)); DeleteClient cid] w)
   ∧ clients (postToConnection env cid data w).2 = delete cid (clients w)
   ∧ messages (postToConnection env cid data w).2 = messages w
   ∧ ∀ nick, uniqueNicknames (clients w) → clients w !! cid = Some nick →
       (getConnectionIdByNickname nick (postToConnection env cid data w).2).1
       = Ok None)
  ∧ (∀ status, apiGw env cid data = Rejected status → status ≠ Some 410 →
     postToConnection env cid data w =
       (Throw (TransportError status),
        applyEffect w (Post cid data (Rejected status)))
     ∧ clients (postToConnection env cid data w).2 = clients w
     ∧ messages (postToConnection env cid data w).2 = messages w).
Proof.
  rewrite postToConnection_eq. unfold postOutcome, postEffects. split.
  - intros ->. simpl. repeat split.
    intros nick Hu Hc. f_equal. apply ownerOf_None. intros c Hc'.
    simpl in Hc'. apply lookup_delete_Some in Hc' as [Hne Hc'].
    apply Hne. by eapply Hu.
  - intros status -> Hst. unfold faultOf, isGone.
    rewrite decide_False by done.
    rewrite bool_decide_eq_false_2 by congruence. done.
Qed.

Lemma postToConnection_gone_evicts_witness :
  postToConnection (sampleEnv (goneFor "2")) "2" PPing aliceAndBob =
    (Ok false,
     performs [Post "2" PPing (Rejected (Some 410)); DeleteClient "2"]
       aliceAndBob)
  ∧ (getConnectionIdByNickname "bob"
       (postToConnection (sampleEnv (goneFor "2")) "2" PPing aliceAndBob).2).1
    = Ok None.
Proof.
  destruct (postToConnection_gone_evicts (sampleEnv (goneFor "2")) "2" PPing
              aliceAndBob) as [Hgone _].
  destruct (Hgone eq_refl) as (Heq & _ & _ & Hfind).
  split; [exact Heq|].
  apply Hfind; [apply aliceAndBob_good|vm_compute; reflexivity].
Defined.

(** ** Disconnect *)

Lemma faultOf_None r :
  faultOf r = None ↔ r = Delivered ∨ r = Rejected (Some 410).
Proof.
  unfold faultOf. destruct r as [|status]; [naive_solver|].
  destruct (decide (status = Some 410)) as [->|Hne]; [naive_solver|].
  split; [done|]. intros [?|?]; congruence.
Qed.

Lemma faultOf_Some r status :
  r = Rejected status → status ≠ Some 410 →
  faultOf r = Some (TransportError status).
Proof. intros -> Hst. unfold faultOf. by rewrite decide_False. Qed.

Lemma firstFault_None env data targets :
  firstFault env data targets = None ↔
  ∀ c, c ∈ targets → faultOf (apiGw env c data) = None.
Proof.
  unfold firstFault. induction targets as [|t targets IH].
  - split; [|done]. intros _ c H. by apply elem_of_nil in H.
  - cbn [omap list_omap]. destruct (faultOf (apiGw env t data)) eqn:Ht.
    + split; [done|]. intros H. specialize (H t). rewrite Ht in H.
      discriminate H. by left.
    + rewrite IH. split.
      * intros H c Hc. apply elem_of_cons in Hc as [->|Hc]; auto.
      * intros H c Hc. apply H. by right.
Qed.

Lemma firstFault_Some env data targets e :
  firstFault env data targets = Some e →
  ∃ c, c ∈ targets ∧ faultOf (apiGw env c data) = Some e.
Proof.
  unfold firstFault. intros H. apply head_Some_elem_of in H.
  apply list_elem_of_omap in H. naive_solver.
Qed.

Lemma faultOf_Some_inv r e :
  faultOf r = Some e →
  ∃ status, r = Rejected status ∧ status ≠ Some 410
            ∧ e = TransportError status.
Proof.
  unfold faultOf. destruct r as [|status]; [done|].
  destruct (decide (status = Some 410)); [done|].
  intros [= <-]. by exists status.
Qed.

(** A broadcast resolves exactly when no push is rejected with a status
    other than 410, and otherwise rejects with the transport error of one
    of the pushes so rejected. *)
Lemma broadcastFault_None env data targets :
  broadcastFault env data targets = None ↔
  ∀ c, c ∈ targets →
       apiGw env c data = Delivered ∨ apiGw env c data = Rejected (Some 410).
Proof.
  unfold broadcastFault. rewrite firstFault_None. split.
  - intros H c Hc. apply faultOf_None, H. by apply elem_of_settleOrder.
  - intros H c Hc. apply faultOf_None, H. by apply elem_of_settleOrder in Hc.
Qed.

Lemma broadcastFault_Some env data targets e :
  broadcastFault env data targets = Some e →
  ∃ c status, c ∈ targets ∧ apiGw env c data = Rejected status
              ∧ status ≠ Some 410 ∧ e = TransportError status.
Proof.
  unfold broadcastFault. intros H.
  apply firstFault_Some in H as (c & Hc & Hf).
  apply elem_of_settleOrder in Hc.
  apply faultOf_Some_inv in Hf as (status & ? & ? & ?). eauto 6.
Qed.

Lemma outcomeOfFault_Ok {A} f (a : A) : outcomeOfFault f a = Ok a ↔ f = None.
Proof. destruct f; simpl; split; congruence. Qed.

(** C9, as amended: a disconnect of connection [cid] deletes the row keyed
    by [cid], first of all, and changes no message.  It issues one roster
    broadcast: one push of the roster of the remaining rows to every
    remaining connection, and none to [cid].  Every other row is as
    before, except that a peer whose push is answered 410 may be evicted:
    it is whenever the broadcast completes, which it does exactly when no
    push is rejected with another status. *)
Theorem handleDisconnect_frame env cid w :
  let remaining := scanClients (applyEffect w (DeleteClient cid)) in
  let r := (handleDisconnect env cid w).1 in
  let w' := (handleDisconnect env cid w).2 in
  let es := drop (length (trace w)) (trace w') in
  clients w' !! cid = None
  ∧ messages w' = messages w
  ∧ (∃ rest, es = DeleteClient cid :: rest
             ∧ Forall (λ e, isPutClient e = false) rest)
  ∧ (∀ c, c ∈ remaining ↔
          connectionId c ≠ cid ∧
          clients w !! connectionId c = Some (nickname c))
  ∧ (∀ c, pushesTo c es =
          if decide (c ≠ cid ∧ is_Some (clients w !! c))
          then [PClients remaining] else [])
  ∧ (∀ c, c ≠ cid →
          clients w' !! c = clients w !! c
          ∨ (clients w' !! c = None
             ∧ apiGw env c (PClients remaining) = Rejected (Some 410)))
  ∧ (r = Ok responseOk ↔
     ∀ c, c ≠ cid → is_Some (clients w !! c) →
          apiGw env c (PClients remaining) = Delivered
          ∨ apiGw env c (PClients remaining) = Rejected (Some 410))
  ∧ (r = Ok responseOk →
     ∀ c, c ≠ cid →
          clients w' !! c =
          if isGone (apiGw env c (PClients remaining)) then None
          else clients w !! c).
Proof.
  intros remaining r w' es. subst remaining r w' es.
  rewrite handleDisconnect_eq. cbn zeta. cbn [fst snd].
  set (w1 := applyEffect w (DeleteClient cid)).
  change (PClients (scanClients w1)) with (rosterOf w1).
  assert (clients w1 = delete cid (clients w)) as Hw1 by done.
  assert (∀ c, c ∈ notifyTargets cid w1 ↔ c ≠ cid ∧ is_Some (clients w !! c))
    as Htargets.
  { intros c. rewrite elem_of_notifyTargets, Hw1. split.
    - intros [Hne [n Hn]]. rewrite lookup_delete_ne in Hn by done. eauto.
    - intros [Hne Hn]. by rewrite lookup_delete_ne. }
  assert (drop (length (trace w))
            (trace (performs (notifyEffects env cid w1) w1))
          = DeleteClient cid :: notifyEffects env cid w1) as ->.
  { rewrite trace_performs. subst w1. cbn [trace applyEffect].
    by rewrite <- app_assoc, drop_app_length. }
  assert (∀ c, c ≠ cid →
            clients (performs (notifyEffects env cid w1) w1) !! c =
            if decide (c ∈ evicted env (rosterOf w1)
                             (settleOrder env (rosterOf w1)
                                (notifyTargets cid w1)))
            then None else clients w !! c) as Hrows.
  { intros c Hne. rewrite clients_performs. unfold notifyEffects.
    by rewrite replay_broadcastEffects, Hw1, lookup_delete_ne. }
  split.
  { rewrite clients_performs. unfold notifyEffects.
    rewrite replay_broadcastEffects, Hw1, lookup_delete_eq.
    by destruct (decide _). }
  split.
  { rewrite messages_performs_no_put; [done|].
    apply broadcastEffects_no_message. }
  split.
  { eexists. split; [done|]. apply broadcastEffects_no_put. }
  split.
  { intros c. rewrite elem_of_scanClients, Hw1, lookup_delete_Some.
    clear. split; intros [? ?]; split; congruence. }
  split.
  { intros c. change (pushesTo c (DeleteClient cid :: ?l)) with (pushesTo c l).
    unfold notifyEffects.
    rewrite pushesTo_broadcastEffects by apply NoDup_notifyTargets.
    destruct (decide (c ∈ notifyTargets cid w1)) as [Hin|Hnin].
    - rewrite decide_True; [done|]. by apply Htargets.
    - rewrite decide_False; [done|]. by rewrite <- Htargets. }
  split.
  { intros c Hne. rewrite Hrows by done.
    destruct (decide _) as [Hin|_]; [|by left].
    right. split; [done|]. by apply evicted_target in Hin as [_ ?]. }
  split.
  { rewrite outcomeOfFault_Ok. unfold notifyFault.
    rewrite broadcastFault_None. split.
    - intros H c Hne Hc. apply H. by apply Htargets.
    - intros H c Hc. apply Htargets in Hc as [? ?]. by apply H. }
  intros Hok c Hne. apply outcomeOfFault_Ok in Hok. rewrite Hrows by done.
  unfold isGone. destruct (decide _) as [Hin|Hnin].
  - apply evicted_target in Hin as [_ Hg].
    by rewrite bool_decide_eq_true_2.
  - case_bool_decide as Hg; [|done].
    destruct (clients w !! c) as [n|] eqn:Hc; [|done].
    destruct Hnin. apply evicted_complete; [done| |done].
    apply elem_of_settleOrder, Htargets. eauto.
Qed.

(** The claim C9 as stated fails on the code: connection 2 disconnects,
    the roster push to connection 1 is answered 410, and the row of
    connection 1 is removed as well. *)
Lemma disconnect_evicts_gone_peer :
  clients aliceAndBob !! "1" = Some "alice"
  ∧ (handle (sampleEnv (goneFor "1")) (disconnectEvent "2") aliceAndBob).1
    = Ok responseOk
  ∧ clients (handle (sampleEnv (goneFor "1")) (disconnectEvent "2")
               aliceAndBob).2 !! "1" = None.
Proof. repeat split; vm_compute; reflexivity. Qed.

(** ** Request bodies *)

Lemma parseSendMessageBody_invalid env b v :
  JSON_parse env (bodyOrEmptyObject b) = Some v → ¬ sendFields v →
  parseSendMessageBody env b =
  Throw (HandleError "Incorrect SendMessageBody format").
Proof.
  intros Hp Hno. unfold parseSendMessageBody. rewrite Hp.
  destruct (falsy v); [done|].
  destruct (getProp v "message") as [[| | |m| |]|] eqn:Hm; try done.
  destruct (getProp v "recipientNickname") as [[| | |r| |]|] eqn:Hr; try done.
  destruct Hno. by exists m, r.
Qed.

Lemma parseGetMessagesBody_invalid env b v :
  JSON_parse env (bodyOrEmptyObject b) = Some v → ¬ historyFields v →
  parseGetMessagesBody env b =
  Throw (HandleError "Incorrect GetMessages format").
Proof.
  intros Hp Hno. unfold parseGetMessagesBody. rewrite Hp.
  destruct (falsy v); [done|].
  destruct (getProp v "targetNickname") as [[| | |t| |]|] eqn:Ht; try done.
  destruct (getProp v "limit") as [[| |l| | |]|] eqn:Hl; try done.
  destruct Hno. by exists t, l.
Qed.

Lemma parse_unparsable env b :
  JSON_parse env (bodyOrEmptyObject b) = None →
  parseSendMessageBody env b = Throw SyntaxError
  ∧ parseGetMessagesBody env b = Throw SyntaxError.
Proof.
  intros Hp. unfold parseSendMessageBody, parseGetMessagesBody.
  by rewrite Hp.
Qed.

Lemma handle_invalid_body env event v w :
  JSON_parse env (bodyOrEmptyObject (ev_body event)) = Some v →
  (routeKey event = "sendMessage" ∧ ¬ sendFields v)
  ∨ (routeKey event = "getMessages" ∧ ¬ historyFields v) →
  handle env event w =
  let data := PError (formatError (routeKey event)) in
  (outcomeOfFault (faultOf (apiGw env (ev_connectionId event) data))
     responseOk,
   performs (postEffects env data (ev_connectionId event)) w).
Proof.
  intros Hp [[Hrk Hno]|[Hrk Hno]].
  - rewrite handle_sendMessage by done.
    rewrite (parseSendMessageBody_invalid _ _ v) by done.
    rewrite catchParse_error, Hrk. done.
  - rewrite handle_getMessages by done.
    rewrite (parseGetMessagesBody_invalid _ _ v) by done.
    rewrite catchParse_error, Hrk. done.
Qed.

(** ** Validation errors *)

(** C7, as amended: when the body of a [sendMessage] or [getMessages] event
    parses as JSON but lacks a required field of the required type, exactly
    one error event is pushed, to the originating connection; the request
    completes with status 200 when that push is delivered or answered 410,
    and a push rejected with another status propagates as a fault. *)
Theorem invalid_body_reported env event v w :
  JSON_parse env (bodyOrEmptyObject (ev_body event)) = Some v →
  (routeKey event = "sendMessage" ∧ ¬ sendFields v)
  ∨ (routeKey event = "getMessages" ∧ ¬ historyFields v) →
  let cid := ev_connectionId event in
  let data := PError (formatError (routeKey event)) in
  trace (handle env event w).2 = trace w ++ postEffects env data cid
  ∧ (∀ c, pushesTo c (postEffects env data cid) =
          if decide (c = cid) then [data] else [])
  ∧ messages (handle env event w).2 = messages w
  ∧ (apiGw env cid data = Delivered ∨ apiGw env cid data = Rejected (Some 410) →
     (handle env event w).1 = Ok responseOk)
  ∧ (∀ status, apiGw env cid data = Rejected status → status ≠ Some 410 →
     (handle env event w).1 = Throw (TransportError status)).
Proof.
  intros Hp Hbad cid data.
  rewrite (handle_invalid_body env event v w Hp Hbad). cbn zeta. cbn [fst snd].
  fold cid data. split; [apply trace_performs|].
  split; [intros c; apply pushesTo_postEffects|].
  split; [apply messages_performs_no_put, postEffects_no_message|].
  split.
  - intros Hok. apply faultOf_None in Hok. by rewrite Hok.
  - intros status Hrej Hst. by rewrite (faultOf_Some _ status).
Qed.

Lemma invalid_body_reported_witness :
  (handle (sampleEnv allDelivered) (sendEvent "1" "{}") aliceAndBob).1
  = Ok responseOk.
Proof.
  assert (¬ sendFields (JObj [])) as Hno.
  { intros (m & r & Hm & _). discriminate Hm. }
  destruct (invalid_body_reported (sampleEnv allDelivered)
              (sendEvent "1" "{}") (JObj []) aliceAndBob eq_refl
              (or_introl (conj eq_refl Hno))) as (_ & _ & _ & Hok & _).
  apply Hok. left. reflexivity.
Defined.

(** The claim C7 as stated fails on the code: an unparsable body makes
    [JSON.parse] throw a [SyntaxError], which [handle] rethrows, and a
    validation error whose error event is rejected with status 500 ends in
    a fault as well. *)
Lemma invalid_body_can_fault :
  handle (sampleEnv allDelivered) (sendEvent "1" "{oops") aliceAndBob
  = (Throw SyntaxError, aliceAndBob)
  ∧ (handle (sampleEnv (failingFor "1")) (sendEvent "1" "{}") aliceAndBob).1
    = Throw (TransportError (Some 500)).
Proof. split; vm_compute; reflexivity. Qed.

(** ** Errors while delivering the error event *)

(** C10: when the error event of a domain error is answered 410 by the
    transport, the row of the originating connection is deleted and the
    handler returns the success response; when it is rejected with any
    other status, that transport error propagates. *)
Theorem error_event_delivery env event msg w :
  (routeKey event = "sendMessage"
   ∧ parseSendMessageBody env (ev_body event) = Throw (HandleError msg))
  ∨ (routeKey event = "getMessages"
     ∧ parseGetMessagesBody env (ev_body event) = Throw (HandleError msg)) →
  let cid := ev_connectionId event in
  (apiGw env cid (PError msg) = Rejected (Some 410) →
   handle env event w =
     (Ok responseOk,
      performs [Post cid (PError msg) (Rejected (Some 410)); DeleteClient cid] w)
   ∧ clients (handle env event w).2 = delete cid (clients w))
  ∧ (∀ status, apiGw env cid (PError msg) = Rejected status →
     status ≠ Some 410 →
     handle env event w =
       (Throw (TransportError status),
        applyEffect w (Post cid (PError msg) (Rejected status)))).
Proof.
  intros Hdom cid.
  assert (handle env event w =
          (outcomeOfFault (faultOf (apiGw env cid (PError msg))) responseOk,
           performs (postEffects env (PError msg) cid) w)) as ->.
  { destruct Hdom as [[Hrk Hp]|[Hrk Hp]].
    - rewrite handle_sendMessage, Hp by done. apply catchParse_error.
    - rewrite handle_getMessages, Hp by done. apply catchParse_error. }
  unfold postEffects. split.
  - intros ->. done.
  - intros status -> Hst. unfold faultOf, isGone.
    rewrite decide_False by done.
    by rewrite bool_decide_eq_false_2 by congruence.
Qed.

Lemma error_event_delivery_witness :
  handle (sampleEnv (goneFor "1")) (sendEvent "1" "{}") aliceAndBob =
    (Ok responseOk,
     performs [Post "1" (PError "Incorrect SendMessageBody format")
                 (Rejected (Some 410)); DeleteClient "1"] aliceAndBob)
  ∧ handle (sampleEnv (failingFor "1")) (sendEvent "1" "{}") aliceAndBob =
    (Throw (TransportError (Some 500)),
     applyEffect aliceAndBob
       (Post "1" (PError "Incorrect SendMessageBody format")
          (Rejected (Some 500)))).
Proof.
  split.
  - apply (error_event_delivery (sampleEnv (goneFor "1")) (sendEvent "1" "{}")
             "Incorrect SendMessageBody format" aliceAndBob
             (or_introl (conj eq_refl eq_refl))).
    reflexivity.
  - apply (error_event_delivery (sampleEnv (failingFor "1"))
             (sendEvent "1" "{}") "Incorrect SendMessageBody format"
             aliceAndBob (or_introl (conj eq_refl eq_refl))).
    + reflexivity.
    + discriminate.
Defined.

(** ** Sending *)

Lemma recipientOf_None b w :
  (∀ c, clients w !! c ≠ Some (recipientNickname b)) → recipientOf b w = None.
Proof.
  intros Hno. unfold recipientOf.
  by rewrite (proj2 (ownerOf_None _ _) Hno).
Qed.

(** C8: a valid [sendMessage] from a registered sender to a nickname with
    no registry row stores the message and returns the success response;
    nothing is pushed, so no failure is reported to the sender. *)
Theorem send_to_absent_recipient env event b nick w :
  routeKey event = "sendMessage" →
  parseSendMessageBody env (ev_body event) = Ok b →
  clients w !! ev_connectionId event = Some nick →
  (∀ c, clients w !! c ≠ Some (recipientNickname b)) →
  let msg := sentMessage env nick b in
  handle env event w = (Ok responseOk, applyEffect w (PutMessage msg))
  ∧ messages (handle env event w).2 !! messageId msg = Some msg
  ∧ trace (handle env event w).2 = trace w ++ [PutMessage msg]
  ∧ clients (handle env event w).2 = clients w.
Proof.
  intros Hrk Hp Hc Hno msg.
  rewrite handle_sendMessage, Hp by done. cbn [catchParse].
  rewrite (handleSendMessage_eq _ _ _ nick) by done. cbn zeta.
  rewrite recipientOf_None by done. fold msg.
  repeat split. simpl. apply lookup_insert_eq.
Qed.

Lemma send_to_absent_recipient_witness :
  handle (sampleEnv allDelivered) (sendEvent "1" (sendBodyText "hi" "bob"))
    (run [(sampleEnv allDelivered, connectEvent "1" "alice")] initialWorld)
  = (Ok responseOk,
     applyEffect
       (run [(sampleEnv allDelivered, connectEvent "1" "alice")] initialWorld)
       (PutMessage (mkMessage "m-1" 1000 "alice#bob" "hi" "alice"))).
Proof.
  apply (send_to_absent_recipient (sampleEnv allDelivered)
           (sendEvent "1" (sendBodyText "hi" "bob"))
           (mkSendMessageBody "hi" "bob") "alice"
           (run [(sampleEnv allDelivered, connectEvent "1" "alice")]
              initialWorld)).
  - reflexivity.
  - vm_compute. reflexivity.
  - vm_compute. reflexivity.
  - intros c. change (clients _) with (<["1" := "alice"]> (∅ : gmap string string)).
    intros H. apply lookup_insert_Some in H as [[_ H]|[_ H]].
    + discriminate H.
    + by rewrite lookup_empty in H.
Defined.

(** C5, as amended: a send that succeeds stores the message and pushes it
    to the connection found for the recipient nickname, if there is one,
    and to no other connection; the sender's own connection is pushed to
    only when it is itself that connection, and otherwise gets nothing but
    the success response. *)
Theorem send_pushes_recipient_only env cid b w r w' :
  handleSendMessage env cid b w = (Ok r, w') →
  ∃ nick es,
    clients w !! cid = Some nick
    ∧ r = responseOk
    ∧ messages w' =
      <[v4 env := sentMessage env nick b]> (messages w)
    ∧ trace w' = trace w ++ PutMessage (sentMessage env nick b) :: es
    ∧ ∀ c, pushesTo c es =
           if decide (recipientOf b w = Some c)
           then [PMessage (sentMessage env nick b)] else [].
Proof.
  intros Hrun. destruct (clients w !! cid) as [nick|] eqn:Hc.
  2: { by rewrite handleSendMessage_unregistered in Hrun. }
  rewrite (handleSendMessage_eq _ _ _ nick) in Hrun by done.
  cbn zeta in Hrun. exists nick.
  destruct (recipientOf b w) as [rc|].
  - exists (postEffects env (PMessage (sentMessage env nick b)) rc).
    destruct (faultOf _); [done|]. cbn [outcomeOfFault] in Hrun.
    apply pair_equal_spec in Hrun as [Hr <-]. injection Hr as <-.
    split; [done|]. split; [done|]. split.
    { rewrite (messages_performs_no_put (postEffects env _ rc))
        by apply postEffects_no_message.
      done. }
    split.
    { rewrite (trace_performs (postEffects env _ rc)). simpl.
      by rewrite <- app_assoc. }
    intros c. rewrite pushesTo_postEffects.
    destruct (decide (c = rc)) as [->|Hne].
    + by rewrite decide_True.
    + rewrite decide_False; [done|]. congruence.
  - exists []. injection Hrun as <- <-. repeat split.
Qed.

Lemma send_pushes_recipient_only_witness :
  ∃ nick es,
    clients aliceAndBob !! "1" = Some nick
    ∧ responseOk = responseOk
    ∧ messages (handleSendMessage (sampleEnv allDelivered) "1"
                  (mkSendMessageBody "hi" "bob") aliceAndBob).2 =
      <["m-1" := sentMessage (sampleEnv allDelivered) nick
                   (mkSendMessageBody "hi" "bob")]> (messages aliceAndBob)
    ∧ trace (handleSendMessage (sampleEnv allDelivered) "1"
               (mkSendMessageBody "hi" "bob") aliceAndBob).2 =
      trace aliceAndBob
      ++ PutMessage (sentMessage (sampleEnv allDelivered) nick
                       (mkSendMessageBody "hi" "bob")) :: es
    ∧ ∀ c, pushesTo c es =
           if decide (recipientOf (mkSendMessageBody "hi" "bob") aliceAndBob
                      = Some c)
           then [PMessage (sentMessage (sampleEnv allDelivered) nick
                             (mkSendMessageBody "hi" "bob"))]
           else [].
Proof.
  apply (send_pushes_recipient_only (sampleEnv allDelivered) "1"
           (mkSendMessageBody "hi" "bob") aliceAndBob responseOk).
  vm_compute. reflexivity.
Defined.

(** The claim C5 as stated fails on the code: alice, on connection 1,
    sends to bob, on connection 2; the send succeeds and nothing is pushed
    to connection 1. *)
Lemma sender_gets_no_push :
  (handle (sampleEnv allDelivered) (sendEvent "1" (sendBodyText "hi" "bob"))
     aliceAndBob).1 = Ok responseOk
  ∧ pushesTo "1"
      (drop (length (trace aliceAndBob))
         (trace (handle (sampleEnv allDelivered)
                   (sendEvent "1" (sendBodyText "hi" "bob")) aliceAndBob).2))
    = []
  ∧ pushesTo "2"
      (drop (length (trace aliceAndBob))
         (trace (handle (sampleEnv allDelivered)
                   (sendEvent "1" (sendBodyText "hi" "bob")) aliceAndBob).2))
    = [PMessage (mkMessage "m-1" 1000 "alice#bob" "hi" "alice")].
Proof. repeat split; vm_compute; reflexivity. Qed.

(** ** Unregistered connections *)

Lemma unregistered_faults env event w :
  clients w !! ev_connectionId event = None →
  (∀ b, routeKey event = "sendMessage" →
        parseSendMessageBody env (ev_body event) = Ok b →
        handle env event w = (Throw TypeError, w))
  ∧ (∀ b, routeKey event = "getMessages" →
          parseGetMessagesBody env (ev_body event) = Ok b →
          handle env event w = (Throw TypeError, w)).
Proof.
  intros Hc. split; intros b Hrk Hp.
  - rewrite handle_sendMessage, Hp by done.
    by apply handleSendMessage_unregistered.
  - rewrite handle_getMessages, Hp by done.
    by apply handleGetMessages_unregistered.
Qed.

(** C6, on the code: a well-formed [sendMessage] or [getMessages] event
    from connection 9, which has no registry row, ends in a thrown
    [TypeError]; no error event is pushed and no response is returned. *)
Theorem unregistered_connection_faults :
  clients aliceAndBob !! "9" = None
  ∧ handle (sampleEnv allDelivered) (sendEvent "9" (sendBodyText "hi" "bob"))
      aliceAndBob = (Throw TypeError, aliceAndBob)
  ∧ handle (sampleEnv allDelivered)
      (historyEvent "9" (historyBodyText "alice")) aliceAndBob
    = (Throw TypeError, aliceAndBob).
Proof.
  assert (clients aliceAndBob !! "9" = None) as Hc
    by (vm_compute; reflexivity).
  split; [done|]. split.
  - eapply (proj1 (unregistered_faults (sampleEnv allDelivered)
              (sendEvent "9" (sendBodyText "hi" "bob")) aliceAndBob Hc)).
    + reflexivity.
    + vm_compute. reflexivity.
  - eapply (proj2 (unregistered_faults (sampleEnv allDelivered)
              (historyEvent "9" (historyBodyText "alice")) aliceAndBob Hc)).
    + reflexivity.
    + vm_compute. reflexivity.
Qed.

(** ** Connecting *)

Lemma notify_keeps_excluded env exclude w :
  clients (performs (notifyEffects env exclude w) w) !! exclude
  = clients w !! exclude.
Proof.
  rewrite clients_performs. unfold notifyEffects.
  rewrite replay_broadcastEffects. rewrite decide_False; [done|].
  intros Hin. apply evicted_target in Hin as [Hin _].
  apply elem_of_notifyTargets in Hin. by destruct Hin.
Qed.

Lemma notify_keeps_absent env exclude w c :
  clients w !! c = None →
  clients (performs (notifyEffects env exclude w) w) !! c = None.
Proof.
  intros Hc. rewrite clients_performs. unfold notifyEffects.
  rewrite replay_broadcastEffects. by destruct (decide _).
Qed.

(** C1, as amended: for a connect request with a non-empty nickname,
    (1) when no row has the nickname, the row of the new connection is
    inserted, first of all, and the handler returns the success response
    exactly when every roster push is delivered or answered 410; otherwise
    the transport error of one of the other pushes propagates, the row
    staying inserted; (2) when the row found for the nickname is answered
    410 on the ping, that row is deleted first and the new row is then
    inserted, with the same response; (3) when the ping is delivered, the
    response is forbidden and neither table changes. *)
Theorem handleConnect_cases env cid q nick w :
  q !! "nickname" = Some nick → nick ≠ "" →
  let r := (handleConnect env cid (Some q) w).1 in
  let w' := (handleConnect env cid (Some q) w).2 in
  let es := drop (length (trace w)) (trace w') in
  ((∀ c, clients w !! c ≠ Some nick) →
   let roster :=
     PClients (scanClients (applyEffect w (PutClient (mkClient cid nick)))) in
   clients w' !! cid = Some nick
   ∧ (∃ rest, es = PutClient (mkClient cid nick) :: rest
              ∧ Forall (λ e, isPutClient e = false) rest)
   ∧ (r = Ok responseOk ↔
      ∀ c, c ≠ cid → is_Some (clients w !! c) →
           apiGw env c roster = Delivered
           ∨ apiGw env c roster = Rejected (Some 410))
   ∧ (r = Ok responseOk
      ∨ ∃ c status, c ≠ cid ∧ is_Some (clients w !! c)
                    ∧ apiGw env c roster = Rejected status
                    ∧ status ≠ Some 410
                    ∧ r = Throw (TransportError status)))
  ∧ (∀ ex, ownerOf nick w = Some ex → ex ≠ "" →
     apiGw env ex PPing = Rejected (Some 410) →
     let w1 := performs [Post ex PPing (Rejected (Some 410)); DeleteClient ex;
                         PutClient (mkClient cid nick)] w in
     clients w' !! cid = Some nick
     ∧ (ex ≠ cid → clients w' !! ex = None)
     ∧ (∃ rest, es = [Post ex PPing (Rejected (Some 410)); DeleteClient ex;
                      PutClient (mkClient cid nick)] ++ rest
                ∧ Forall (λ e, isPutClient e = false) rest)
     ∧ (r = Ok responseOk ↔
        ∀ c, c ∈ notifyTargets cid w1 →
             apiGw env c (rosterOf w1) = Delivered
             ∨ apiGw env c (rosterOf w1) = Rejected (Some 410))
     ∧ (r = Ok responseOk
        ∨ ∃ c status, c ∈ notifyTargets cid w1
                      ∧ apiGw env c (rosterOf w1) = Rejected status
                      ∧ status ≠ Some 410
                      ∧ r = Throw (TransportError status)))
  ∧ (∀ ex, ownerOf nick w = Some ex → ex ≠ "" →
     apiGw env ex PPing = Delivered →
     r = Ok responseForbidden
     ∧ clients w' = clients w
     ∧ messages w' = messages w
     ∧ trace w' = trace w ++ [Post ex PPing Delivered]).
Proof.
  intros Hq Hn r w' es. subst r w' es. split; [|split].
  - intros Hfree roster. subst roster. apply ownerOf_None in Hfree.
    rewrite (handleConnect_free env cid q nick w) by done.
    cbn zeta. cbn [fst snd].
    set (w1 := applyEffect w (PutClient (mkClient cid nick))).
    change (PClients (scanClients w1)) with (rosterOf w1).
    assert (∀ c, c ∈ notifyTargets cid w1 ↔ c ≠ cid ∧ is_Some (clients w !! c))
      as Htargets.
    { intros c. rewrite elem_of_notifyTargets. subst w1. simpl. split.
      - intros [Hne Hc]. by rewrite lookup_insert_ne in Hc.
      - intros [Hne Hc]. by rewrite lookup_insert_ne. }
    split.
    { rewrite notify_keeps_excluded. apply lookup_insert_eq. }
    split.
    { rewrite trace_performs. subst w1. cbn [trace applyEffect].
      rewrite <- app_assoc, drop_app_length. eexists. split; [done|].
      apply broadcastEffects_no_put. }
    split.
    { rewrite outcomeOfFault_Ok. unfold notifyFault.
      rewrite broadcastFault_None. split.
      - intros H c Hne Hc. apply H. by apply Htargets.
      - intros H c Hc. apply Htargets in Hc as [? ?]. by apply H. }
    destruct (notifyFault env cid w1) as [e|] eqn:Hf; [|by left].
    right. apply broadcastFault_Some in Hf as (c & status & Hc & ? & ? & ->).
    apply Htargets in Hc as [? ?]. by exists c, status.
  - intros ex Ho Hex Hgone.
    rewrite (handleConnect_stale env cid q nick ex w) by done.
    cbn zeta. cbn [fst snd].
    set (w1 := performs _ w).
    split.
    { rewrite notify_keeps_excluded. apply lookup_insert_eq. }
    split.
    { intros Hne. apply notify_keeps_absent. subst w1. simpl.
      rewrite lookup_insert_ne by done. apply lookup_delete_eq. }
    split.
    { rewrite trace_performs. subst w1. rewrite trace_performs.
      rewrite <- app_assoc, drop_app_length. eexists. split; [done|].
      apply broadcastEffects_no_put. }
    split.
    { rewrite outcomeOfFault_Ok. unfold notifyFault.
      by rewrite broadcastFault_None. }
    destruct (notifyFault env cid w1) as [e|] eqn:Hf; [|by left].
    right. apply broadcastFault_Some in Hf as (c & status & Hc & ? & ? & ->).
    by exists c, status.
  - intros ex Ho Hex Hdel.
    rewrite (handleConnect_taken env cid q nick ex w) by done.
    done.
Qed.

Lemma handleConnect_cases_witness :
  (handleConnect (sampleEnv allDelivered) "3" (Some {["nickname" := "carol"]})
     aliceAndBob).1 = Ok responseOk
  ∧ clients (handleConnect (sampleEnv (goneFor "2")) "3"
               (Some {["nickname" := "bob"]}) aliceAndBob).2 !! "3"
    = Some "bob"
  ∧ (handleConnect (sampleEnv allDelivered) "3" (Some {["nickname" := "bob"]})
       aliceAndBob).1 = Ok responseForbidden.
Proof.
  split; [|split].
  - destruct (handleConnect_cases (sampleEnv allDelivered) "3"
                {["nickname" := "carol"]} "carol" aliceAndBob
                (lookup_singleton_eq _ _))
      as (Hfree & _ & _); [discriminate|].
    destruct Hfree as (_ & _ & Hok & _).
    + apply ownerOf_None. vm_compute. reflexivity.
    + apply Hok. intros c _ _. left. reflexivity.
  - destruct (handleConnect_cases (sampleEnv (goneFor "2")) "3"
                {["nickname" := "bob"]} "bob" aliceAndBob
                (lookup_singleton_eq _ _))
      as (_ & Hstale & _); [discriminate|].
    apply (Hstale "2"); [vm_compute; reflexivity|discriminate|reflexivity].
  - destruct (handleConnect_cases (sampleEnv allDelivered) "3"
                {["nickname" := "bob"]} "bob" aliceAndBob
                (lookup_singleton_eq _ _))
      as (_ & _ & Htaken); [discriminate|].
    apply (Htaken "2"); [vm_compute; reflexivity|discriminate|reflexivity].
Defined.

(** The claim C1 as stated fails on the code: no row has the nickname
    carol, the row of the new connection is inserted, and the handler still
    does not return success, because the roster push to connection 1 is
    rejected with status 500. *)
Lemma connect_can_fault_after_insert :
  ownerOf "carol" aliceAndBob = None
  ∧ (handle (sampleEnv (failingFor "1")) (connectEvent "3" "carol")
       aliceAndBob).1 = Throw (TransportError (Some 500))
  ∧ clients (handle (sampleEnv (failingFor "1")) (connectEvent "3" "carol")
               aliceAndBob).2 !! "3" = Some "carol".
Proof. repeat split; vm_compute; reflexivity. Qed.

(** ** Uniqueness of nicknames *)

Lemma quiet_pure {A} (f : World → Outcome A) : quiet (λ w, (f w, w)).
Proof. intros w. by exists []. Qed.

Lemma quiet_ret {A} (a : A) : quiet (ret a).
Proof. apply (quiet_pure (λ _, Ok a)). Qed.

Lemma quiet_throw {A} e : quiet (@throw A e).
Proof. apply (quiet_pure (λ _, Throw e)). Qed.

Lemma quiet_bind {A B} (m : M A) (k : A → M B) :
  quiet m → (∀ a, quiet (k a)) → quiet (bind m k).
Proof.
  intros Hm Hk w. destruct (Hm w) as (es1 & Hw1 & Hes1). unfold bind.
  destruct (m w) as [[a|e] w1]; simpl in Hw1; subst w1.
  - destruct (Hk a (performs es1 w)) as (es2 & Hw2 & Hes2).
    exists (es1 ++ es2). rewrite Hw2, performs_app. split; [done|].
    by apply Forall_app.
  - by exists es1.
Qed.

Lemma quiet_perform e : isPutClient e = false → quiet (perform e).
Proof. intros He w. exists [e]. split; [done|]. by repeat constructor. Qed.

Lemma quiet_postToConnection env cid data :
  quiet (postToConnection env cid data).
Proof.
  intros w. rewrite postToConnection_eq. eexists. split; [done|].
  apply postEffects_no_put.
Qed.

Lemma quiet_notifyClients env exclude : quiet (notifyClients env exclude).
Proof.
  intros w. rewrite notifyClients_eq. eexists. split; [done|].
  apply broadcastEffects_no_put.
Qed.

Lemma quiet_handleDisconnect env cid : quiet (handleDisconnect env cid).
Proof.
  unfold handleDisconnect. apply quiet_bind; [by apply quiet_perform|].
  intros _. apply quiet_bind; [apply quiet_notifyClients|].
  intros _. apply quiet_ret.
Qed.

Lemma quiet_handleGetClients env cid : quiet (handleGetClients env cid).
Proof.
  unfold handleGetClients. apply quiet_bind; [apply quiet_pure|].
  intros cs. apply quiet_bind; [apply quiet_postToConnection|].
  intros _. apply quiet_ret.
Qed.

Lemma quiet_handleSendMessage env cid b : quiet (handleSendMessage env cid b).
Proof.
  unfold handleSendMessage. apply quiet_bind; [apply quiet_pure|].
  intros [sc|]; [|apply quiet_throw].
  apply quiet_bind; [by apply quiet_perform|]. intros _.
  apply quiet_bind; [apply quiet_pure|]. intros [rc|].
  - apply quiet_bind; [|intros _; apply quiet_ret].
    destruct (truthy rc); [apply quiet_postToConnection|apply quiet_ret].
  - apply quiet_bind; [apply quiet_ret|intros _; apply quiet_ret].
Qed.

Lemma quiet_handleGetMessages env cid b : quiet (handleGetMessages env cid b).
Proof.
  unfold handleGetMessages. apply quiet_bind; [apply quiet_pure|].
  intros [c|]; [|apply quiet_throw].
  apply quiet_bind.
  - intros w. exists []. split; [|done]. unfold queryMessages.
    by destruct (limit b <? 1).
  - intros msgs. apply quiet_bind; [apply quiet_postToConnection|].
    intros _. apply quiet_ret.
Qed.

Lemma quiet_catchParse {A} env cid (parsed : Outcome A) k :
  (∀ a, quiet (k a)) → quiet (catchParse env cid parsed k).
Proof.
  intros Hk. unfold catchParse. destruct parsed as [a|[msg| | | |]];
    try apply quiet_throw; [apply Hk|].
  apply quiet_bind; [apply quiet_postToConnection|].
  intros _. apply quiet_ret.
Qed.

Lemma quiet_steps {A} (m : M A) w :
  quiet m → goodRegistry (clients w) →
  ∃ es, (m w).2 = performs es w
        ∧ Forall goodRegistry (timeline (clients w) es).
Proof.
  intros Hm Hg. destruct (Hm w) as (es & Hw & Hes). exists es.
  split; [done|]. by apply timeline_good_no_put.
Qed.

Lemma timeline_put_then_quiet reg cid nick es :
  goodRegistry reg → cid ≠ "" →
  (∀ c, reg !! c = Some nick → c = cid) →
  Forall (λ e, isPutClient e = false) es →
  Forall goodRegistry (timeline reg (PutClient (mkClient cid nick) :: es)).
Proof.
  intros Hg Hne Hfree Hes. simpl. constructor; [done|].
  apply timeline_good_no_put; [|done]. by apply goodRegistry_insert.
Qed.

Lemma handleConnect_steps env cid qs w :
  goodRegistry (clients w) → cid ≠ "" →
  ∃ es, (handleConnect env cid qs w).2 = performs es w
        ∧ Forall goodRegistry (timeline (clients w) es).
Proof.
  intros Hg Hcid.
  assert (∃ es, w = performs es w
                ∧ Forall goodRegistry (timeline (clients w) es)) as Hnone.
  { exists []. split; [done|]. simpl. constructor; [done|constructor]. }
  destruct qs as [q|]; [|done].
  destruct (q !! "nickname") as [nick|] eqn:Hq;
    [|unfold handleConnect; by rewrite Hq].
  destruct (truthy nick) eqn:Hn;
    [|unfold handleConnect; by rewrite Hq, Hn].
  apply truthy_true in Hn.
  destruct (ownerOf nick w) as [ex|] eqn:Ho.
  - assert (clients w !! ex = Some nick) as Hex by by apply ownerOf_Some.
    assert (ex ≠ "") as Hne.
    { intros ->. destruct Hg as [_ Hg]. congruence. }
    destruct (apiGw env ex PPing) as [|status] eqn:Hping.
    + rewrite (handleConnect_taken env cid q nick ex w) by done.
      exists [Post ex PPing Delivered]. split; [done|].
      by apply timeline_good_no_put; [|repeat constructor].
    + destruct (decide (status = Some 410)) as [->|Hst].
      * rewrite (handleConnect_stale env cid q nick ex w) by done.
        cbn zeta. cbn [snd]. rewrite <- performs_app.
        eexists. split; [done|].
        change ([?a; ?b; ?c] ++ ?l) with ([a; b] ++ c :: l).
        apply timeline_app. split.
        { by apply timeline_good_no_put; [|repeat constructor]. }
        apply timeline_put_then_quiet; [| done | |].
        -- simpl. by apply goodRegistry_delete.
        -- simpl. intros c Hc. apply lookup_delete_Some in Hc as [Hc1 Hc2].
           destruct Hc1. destruct Hg as [Hu _]. by eapply Hu.
        -- apply broadcastEffects_no_put.
      * rewrite (handleConnect_probe_fault env cid q nick ex status w)
          by done.
        exists [Post ex PPing (Rejected status)]. split; [done|].
        by apply timeline_good_no_put; [|repeat constructor].
  - rewrite (handleConnect_free env cid q nick w) by done.
    cbn zeta. cbn [snd].
    change (performs ?es (applyEffect w ?e)) with (performs (e :: es) w).
    eexists. split; [done|].
    apply timeline_put_then_quiet; [done|done| |].
    + intros c Hc. rewrite ownerOf_None in Ho. by destruct (Ho c).
    + apply broadcastEffects_no_put.
Qed.

Lemma handle_steps env event w :
  goodRegistry (clients w) →
  (routeKey event = "$connect" → ev_connectionId event ≠ "") →
  ∃ es, (handle env event w).2 = performs es w
        ∧ Forall goodRegistry (timeline (clients w) es).
Proof.
  intros Hg Hcid. unfold handle.
  destruct (String.eqb_spec (routeKey event) "$connect") as [Hrk|_].
  { apply handleConnect_steps; auto. }
  destruct (String.eqb (routeKey event) "$disconnect").
  { by apply quiet_steps; [apply quiet_handleDisconnect|]. }
  destruct (String.eqb (routeKey event) "getClients").
  { by apply quiet_steps; [apply quiet_handleGetClients|]. }
  destruct (String.eqb (routeKey event) "sendMessage").
  { apply quiet_steps; [|done]. apply quiet_catchParse.
    intros b. apply quiet_handleSendMessage. }
  destruct (String.eqb (routeKey event) "getMessages").
  { apply quiet_steps; [|done]. apply quiet_catchParse.
    intros b. apply quiet_handleGetMessages. }
  by apply quiet_steps; [apply quiet_ret|].
Qed.

Lemma consistent_initial : consistent initialWorld.
Proof.
  split; [done|]. repeat constructor. apply goodRegistry_empty.
Qed.

Lemma consistent_performs es w :
  consistent w → Forall goodRegistry (timeline (clients w) es) →
  consistent (performs es w).
Proof.
  intros [Hc Ht] Hes. split.
  - by rewrite clients_performs, trace_performs, replay_app, <- Hc.
  - rewrite trace_performs. apply timeline_app. split; [done|].
    by rewrite <- Hc.
Qed.

Lemma consistent_good w : consistent w → goodRegistry (clients w).
Proof. intros [Hc Ht]. rewrite Hc. by apply timeline_last. Qed.

Lemma run_consistent evs w :
  consistent w →
  Forall (λ ee : Env * Event,
            routeKey ee.2 = "$connect" → ev_connectionId ee.2 ≠ "") evs →
  consistent (run evs w).
Proof.
  revert w. induction evs as [|[env event] evs IH]; intros w Hw Hevs; [done|].
  inversion Hevs as [|? ? Hev Hrest]; subst. simpl in Hev.
  unfold run. simpl. apply IH; [|done].
  destruct (handle_steps env event w (consistent_good w Hw) Hev)
    as (es & -> & Hes).
  by apply consistent_performs.
Qed.

(** C3: events are handled one at a time, starting from the empty
    registry, and connect events carry a non-empty connection identifier.
    Then every registry state passed through, after each single store
    operation of each handler, has at most one row per nickname, and so
    has the final registry. *)
Theorem nickname_uniqueness (evs : list (Env * Event)) :
  Forall (λ ee : Env * Event,
            routeKey ee.2 = "$connect" → ev_connectionId ee.2 ≠ "") evs →
  clients (run evs initialWorld) = replay ∅ (trace (run evs initialWorld))
  ∧ Forall uniqueNicknames (timeline ∅ (trace (run evs initialWorld)))
  ∧ uniqueNicknames (clients (run evs initialWorld)).
Proof.
  intros Hevs.
  pose proof (run_consistent evs initialWorld consistent_initial Hevs)
    as Hcons.
  split; [apply Hcons|]. split.
  - destruct Hcons as [_ Ht]. eapply Forall_impl; [exact Ht|].
    by intros reg [Hu _].
  - by destruct (consistent_good _ Hcons).
Qed.

Lemma nickname_uniqueness_witness :
  Forall uniqueNicknames
    (timeline ∅
       (trace (run [(sampleEnv allDelivered, connectEvent "1" "alice");
                    (sampleEnv (goneFor "1"), connectEvent "2" "alice");
                    (sampleEnv allDelivered, connectEvent "3" "alice");
                    (sampleEnv allDelivered, disconnectEvent "2")]
                 initialWorld))).
Proof.
  apply (nickname_uniqueness
           [(sampleEnv allDelivered, connectEvent "1" "alice");
            (sampleEnv (goneFor "1"), connectEvent "2" "alice");
            (sampleEnv allDelivered, connectEvent "3" "alice");
            (sampleEnv allDelivered, disconnectEvent "2")]).
  repeat constructor; simpl; discriminate.
Defined.

(** ** Conversation keys and history *)

Lemma sort_pair a b : sort_strings [a; b] = sort_strings [b; a].
Proof.
  unfold sort_strings. simpl.
  destruct (String.leb a b) eqn:Hab, (String.leb b a) eqn:Hba; try done.
  - by rewrite (String.leb_antisym a b Hab Hba).
  - destruct (String.leb_total a b); congruence.
Qed.

Lemma getNicknameToNickname_comm a b :
  getNicknameToNickname [a; b] = getNicknameToNickname [b; a].
Proof. unfold getNicknameToNickname. by rewrite sort_pair. Qed.

Lemma elem_of_newest_insert m x l :
  m ∈ newest_insert x l ↔ m = x ∨ m ∈ l.
Proof.
  induction l as [|y l IH]; simpl.
  - rewrite list_elem_of_singleton. split; [by left|].
    intros [?|H]; [done|]. by apply elem_of_nil in H.
  - destruct (createdAt y <=? createdAt x).
    + by rewrite elem_of_cons.
    + rewrite !elem_of_cons, IH. tauto.
Qed.

Lemma elem_of_newestFirst m l : m ∈ newestFirst l ↔ m ∈ l.
Proof.
  unfold newestFirst. induction l as [|x l IH]; simpl; [done|].
  by rewrite elem_of_newest_insert, IH, elem_of_cons.
Qed.

Lemma length_newest_insert x l :
  length (newest_insert x l) = S (length l).
Proof.
  induction l as [|y l IH]; simpl; [done|].
  destruct (createdAt y <=? createdAt x); simpl; by rewrite ?IH.
Qed.

Lemma length_newestFirst l : length (newestFirst l) = length l.
Proof.
  unfold newestFirst. induction l as [|x l IH]; simpl; [done|].
  by rewrite length_newest_insert, IH.
Qed.

Lemma elem_of_conversation m key w :
  m ∈ conversation key w ↔
  nicknameToNickname m = key ∧ ∃ id, messages w !! id = Some m.
Proof.
  unfold conversation. rewrite list_elem_of_filter, list_elem_of_fmap.
  split.
  - intros [Hk [[id m'] [-> Hin]]]. split; [done|]. exists id.
    by apply elem_of_map_to_list.
  - intros [Hk [id Hid]]. split; [done|]. exists (id, m). split; [done|].
    by apply elem_of_map_to_list.
Qed.

Lemma handleSendMessage_messages env cid b nick w :
  clients w !! cid = Some nick →
  messages (handleSendMessage env cid b w).2 =
  <[v4 env := sentMessage env nick b]> (messages w).
Proof.
  intros Hc. rewrite (handleSendMessage_eq _ _ _ nick) by done. cbn zeta.
  destruct (recipientOf b w) as [rc|]; [|done].
  cbn [snd].
  rewrite (messages_performs_no_put (postEffects env _ rc))
    by apply postEffects_no_message.
  done.
Qed.

(** C4: the conversation key of two nicknames does not depend on their
    order: it is the sorted pair joined with the separator.  A message
    sent from a to b is stored under that key, and a history query from a
    targeting b and one from b targeting a read the same conversation and
    push the same page to their caller; the page holds the stored message
    whenever the query starts at the beginning and its limit covers the
    conversation. *)
Theorem conversation_key_symmetry env0 cA a b text w :
  clients w !! cA = Some a →
  let w1 := (handleSendMessage env0 cA (mkSendMessageBody text b) w).2 in
  let msg := sentMessage env0 a (mkSendMessageBody text b) in
  let key := getNicknameToNickname [a; b] in
  getNicknameToNickname [b; a] = key
  ∧ key = (if String.leb a b then a +:+ "#" +:+ b else b +:+ "#" +:+ a)
  ∧ nicknameToNickname msg = key
  ∧ msg ∈ conversation key w1
  ∧ ∀ env c x y lim start,
      (x = a ∧ y = b) ∨ (x = b ∧ y = a) →
      clients w1 !! c = Some x → 1 ≤ lim →
      let ordered := newestFirst (conversation key w1) in
      let page := take (Z.to_nat lim)
                    match start with
                    | Some k => exclusiveStart env k ordered
                    | None => ordered
                    end in
      trace (handleGetMessages env c (mkGetMessagesBody y lim start) w1).2
      = trace w1 ++ postEffects env (PMessages page) c
      ∧ pushesTo c (postEffects env (PMessages page) c) = [PMessages page]
      ∧ (start = None →
         (length (conversation key w1) ≤ Z.to_nat lim)%nat →
         msg ∈ page).
Proof.
  intros Hc w1 msg key.
  split; [symmetry; apply getNicknameToNickname_comm|].
  split.
  { subst key. unfold getNicknameToNickname, sort_strings. simpl.
    by destruct (String.leb a b). }
  split; [done|]. split.
  { apply elem_of_conversation. split; [done|]. exists (v4 env0).
    subst w1. rewrite (handleSendMessage_messages _ _ _ a) by done.
    apply lookup_insert_eq. }
  intros env c x y lim start Hdir Hcx Hlim ordered page.
  rewrite (handleGetMessages_eq env c _ x w1) by done.
  cbn zeta. cbn [snd].
  assert (historyPage env x (mkGetMessagesBody y lim start) w1 = page) as ->.
  { unfold historyPage. cbn [targetNickname limit startKey].
    assert (getNicknameToNickname [x; y] = key) as ->; [|done].
    destruct Hdir as [[-> ->]|[-> ->]]; [done|].
    symmetry. apply getNicknameToNickname_comm. }
  split; [apply trace_performs|].
  split.
  { rewrite pushesTo_postEffects. by rewrite decide_True. }
  intros -> Hlen. subst page.
  rewrite take_ge by (subst ordered; by rewrite length_newestFirst).
  apply elem_of_newestFirst.
  apply elem_of_conversation. split; [done|]. exists (v4 env0).
  subst w1. rewrite (handleSendMessage_messages _ _ _ a) by done.
  apply lookup_insert_eq.
Qed.

Lemma conversation_key_symmetry_witness :
  mkMessage "m-1" 1000 "alice#bob" "hi" "alice"
  ∈ take 10
      (newestFirst
         (conversation "alice#bob"
            (handleSendMessage (sampleEnv allDelivered) "1"
               (mkSendMessageBody "hi" "bob") aliceAndBob).2)).
Proof.
  destruct (conversation_key_symmetry (sampleEnv allDelivered) "1" "alice"
              "bob" "hi" aliceAndBob) as (_ & _ & _ & _ & Hhist).
  { vm_compute. reflexivity. }
  destruct (Hhist (sampleEnv allDelivered) "2" "bob" "alice" 10 None)
    as (_ & _ & Hin).
  - right. split; reflexivity.
  - vm_compute. reflexivity.
  - lia.
  - apply Hin; [reflexivity|]. vm_compute. lia.
Defined.

(** ** The footprint of an invocation *)

Section Footprint.
Variables (env : Env) (event : Event).

Let Q := footprint env event.

Lemma effectsSat_pure {A} (f : World → Outcome A) :
  effectsSat Q (λ w, (f w, w)).
Proof. intros w. exists []. split; [done|]. apply fp_nil. Qed.

Lemma effectsSat_ret {A} (a : A) : effectsSat Q (ret a).
Proof. apply (effectsSat_pure (λ _, Ok a)). Qed.

Lemma effectsSat_throw {A} e : effectsSat Q (@throw A e).
Proof. apply (effectsSat_pure (λ _, Throw e)). Qed.

Lemma effectsSat_bind {A B} (m : M A) (k : A → M B) :
  effectsSat Q m → (∀ a, effectsSat Q (k a)) → effectsSat Q (bind m k).
Proof.
  intros Hm Hk w. destruct (Hm w) as (es1 & Hw1 & Hes1). unfold bind.
  destruct (m w) as [[a|e] w1]; simpl in Hw1; subst w1.
  - destruct (Hk a (performs es1 w)) as (es2 & Hw2 & Hes2).
    exists (es1 ++ es2). rewrite Hw2, performs_app. split; [done|].
    by apply fp_app.
  - by exists es1.
Qed.

Lemma effectsSat_perform e : Q [e] → effectsSat Q (perform e).
Proof. intros He w. by exists [e]. Qed.

Lemma effectsSat_postToConnection cid data :
  effectsSat Q (postToConnection env cid data).
Proof.
  intros w. rewrite postToConnection_eq. eexists. split; [done|].
  apply fp_post.
Qed.

Lemma footprint_broadcast data targets :
  Q (broadcastEffects env data targets).
Proof.
  unfold broadcastEffects, evictions. apply fp_broadcast.
  intros c. apply evicted_target.
Qed.

Lemma effectsSat_notifyClients exclude :
  effectsSat Q (notifyClients env exclude).
Proof.
  intros w. rewrite notifyClients_eq. eexists. split; [done|].
  apply footprint_broadcast.
Qed.

Lemma effectsSat_handleConnect :
  routeKey event = "$connect" →
  effectsSat Q (handleConnect env (ev_connectionId event)
                  (queryStringParameters event)).
Proof.
  intros Hrk. unfold handleConnect.
  destruct (queryStringParameters event) as [q|] eqn:Hqs;
    [|apply effectsSat_ret].
  destruct (q !! "nickname") as [nick|] eqn:Hq; [|apply effectsSat_ret].
  destruct (truthy nick); [|apply effectsSat_ret].
  apply effectsSat_bind; [apply effectsSat_pure|]. intros existing.
  apply effectsSat_bind.
  { destruct existing as [ex|]; [|apply effectsSat_ret].
    destruct (truthy ex);
      [apply effectsSat_postToConnection|apply effectsSat_ret]. }
  intros [|]; [apply effectsSat_ret|].
  apply effectsSat_bind.
  { apply effectsSat_perform. apply fp_connect; [done|].
    unfold claimedNickname. by rewrite Hqs. }
  intros _. apply effectsSat_bind; [apply effectsSat_notifyClients|].
  intros _. apply effectsSat_ret.
Qed.

Lemma effectsSat_handleDisconnect :
  routeKey event = "$disconnect" →
  effectsSat Q (handleDisconnect env (ev_connectionId event)).
Proof.
  intros Hrk. unfold handleDisconnect.
  apply effectsSat_bind; [by apply effectsSat_perform, fp_disconnect|].
  intros _. apply effectsSat_bind; [apply effectsSat_notifyClients|].
  intros _. apply effectsSat_ret.
Qed.

Lemma effectsSat_handleGetClients cid :
  effectsSat Q (handleGetClients env cid).
Proof.
  unfold handleGetClients. apply effectsSat_bind; [apply effectsSat_pure|].
  intros cs. apply effectsSat_bind; [apply effectsSat_postToConnection|].
  intros _. apply effectsSat_ret.
Qed.

Lemma effectsSat_handleSendMessage cid b :
  routeKey event = "sendMessage" →
  parseSendMessageBody env (ev_body event) = Ok b →
  effectsSat Q (handleSendMessage env cid b).
Proof.
  intros Hrk Hp. unfold handleSendMessage.
  apply effectsSat_bind; [apply effectsSat_pure|].
  intros [sc|]; [|apply effectsSat_throw].
  apply effectsSat_bind.
  { apply effectsSat_perform. by apply (fp_send env event (nickname sc) b). }
  intros _. apply effectsSat_bind; [apply effectsSat_pure|]. intros [rc|].
  - apply effectsSat_bind; [|intros _; apply effectsSat_ret].
    destruct (truthy rc);
      [apply effectsSat_postToConnection|apply effectsSat_ret].
  - apply effectsSat_bind; [apply effectsSat_ret|].
    intros _. apply effectsSat_ret.
Qed.

Lemma effectsSat_handleGetMessages cid b :
  effectsSat Q (handleGetMessages env cid b).
Proof.
  unfold handleGetMessages. apply effectsSat_bind; [apply effectsSat_pure|].
  intros [c|]; [|apply effectsSat_throw].
  apply effectsSat_bind.
  - intros w. exists []. split; [|apply fp_nil]. unfold queryMessages.
    by destruct (limit b <? 1).
  - intros msgs.
    apply effectsSat_bind; [apply effectsSat_postToConnection|].
    intros _. apply effectsSat_ret.
Qed.

Lemma effectsSat_catchParse {A} (parsed : Outcome A) k :
  (∀ a, parsed = Ok a → effectsSat Q (k a)) →
  effectsSat Q (catchParse env (ev_connectionId event) parsed k).
Proof.
  intros Hk. unfold catchParse. destruct parsed as [a|[msg| | | |]];
    try apply effectsSat_throw; [by apply Hk|].
  apply effectsSat_bind; [apply effectsSat_postToConnection|].
  intros _. apply effectsSat_ret.
Qed.

Lemma handle_footprint : effectsSat Q (handle env event).
Proof.
  unfold handle.
  destruct (String.eqb_spec (routeKey event) "$connect") as [Hrk|_].
  { by apply effectsSat_handleConnect. }
  destruct (String.eqb_spec (routeKey event) "$disconnect") as [Hrk|_].
  { by apply effectsSat_handleDisconnect. }
  destruct (String.eqb (routeKey event) "getClients").
  { apply effectsSat_handleGetClients. }
  destruct (String.eqb_spec (routeKey event) "sendMessage") as [Hrk|_].
  { apply effectsSat_catchParse. intros b Hb.
    by apply effectsSat_handleSendMessage. }
  destruct (String.eqb (routeKey event) "getMessages").
  { apply effectsSat_catchParse. intros b _.
    apply effectsSat_handleGetMessages. }
  apply effectsSat_ret.
Qed.

(** What a footprint can do to a row of the registry. *)
Lemma footprint_row_added es :
  Q es → ∀ reg c n,
  replay reg es !! c = Some n →
  reg !! c = Some n
  ∨ (routeKey event = "$connect" ∧ c = ev_connectionId event
     ∧ claimedNickname event = Some n).
Proof.
  induction 1 as [|es1 es2 _ IH1 _ IH2|data cid|data targets gone Hev
                    |Hrk|nick Hrk Hn|nick b Hrk Hp];
    intros reg c n Hc.
  - by left.
  - rewrite replay_app in Hc.
    destruct (IH2 _ _ _ Hc) as [Hc'|?]; [by apply IH1|by right].
  - rewrite replay_postEffects in Hc. left.
    by destruct (decide _).
  - rewrite replay_app, replay_pushEffects, replay_deletes in Hc. left.
    by destruct (decide _).
  - simpl in Hc. apply lookup_delete_Some in Hc as [_ Hc]. by left.
  - simpl in Hc. apply lookup_insert_Some in Hc as [[<- <-]|[_ Hc]].
    + by right.
    + by left.
  - by left.
Qed.

Lemma footprint_row_removed es :
  Q es → ∀ reg c n,
  reg !! c = Some n → replay reg es !! c = None →
  (routeKey event = "$disconnect" ∧ c = ev_connectionId event)
  ∨ ∃ data, Post c data (Rejected (Some 410)) ∈ es.
Proof.
  induction 1 as [|es1 es2 _ IH1 _ IH2|data cid|data targets gone Hev
                    |Hrk|nick Hrk Hn|nick b Hrk Hp];
    intros reg c n Hc Hgone.
  - simpl in Hgone. congruence.
  - rewrite replay_app in Hgone.
    destruct (replay reg es1 !! c) as [n'|] eqn:Hmid.
    + destruct (IH2 _ _ _ Hmid Hgone) as [?|[data Hin]]; [by left|].
      right. exists data. apply elem_of_app. by right.
    + destruct (IH1 _ _ _ Hc Hmid) as [?|[data Hin]]; [by left|].
      right. exists data. apply elem_of_app. by left.
  - rewrite replay_postEffects in Hgone.
    destruct (decide _) as [[-> Hg]|_]; [|congruence].
    right. exists data. unfold postEffects. unfold isGone in Hg.
    apply bool_decide_eq_true_1 in Hg. rewrite Hg. left.
  - rewrite replay_app, replay_pushEffects, replay_deletes in Hgone.
    destruct (decide _) as [Hin|_]; [|congruence].
    destruct (Hev c Hin) as [Ht Hg].
    right. exists data. apply elem_of_app. left. unfold pushEffects.
    apply list_elem_of_fmap. exists c. by rewrite Hg.
  - simpl in Hgone. apply lookup_delete_None in Hgone as [<-|Hn].
    + by left.
    + congruence.
  - simpl in Hgone. apply lookup_insert_None in Hgone as [Hno _].
    congruence.
  - simpl in Hgone. congruence.
Qed.

Lemma footprint_messages es :
  Q es → ∀ w id,
  routeKey event ≠ "sendMessage" ∨ id ≠ v4 env →
  messages (performs es w) !! id = messages w !! id.
Proof.
  induction 1 as [|es1 es2 _ IH1 _ IH2|data cid|data targets gone Hev
                    |Hrk|nick Hrk Hn|nick b Hrk Hp];
    intros w id Hid; try done.
  - by rewrite performs_app, IH2, IH1.
  - by rewrite messages_performs_no_put by apply postEffects_no_message.
  - rewrite messages_performs_no_put; [done|].
    unfold pushEffects. apply Forall_app.
    split; apply Forall_fmap, Forall_true; done.
  - simpl. destruct Hid as [?|Hid]; [done|]. by rewrite lookup_insert_ne.
Qed.

End Footprint.

(** ** Results and exceptions of the handlers *)

Lemma outcomeIn_weaken {A} (P P' : A → Prop) (E E' : Exn → Prop) (m : M A) :
  (∀ a, P a → P' a) → (∀ e, E e → E' e) →
  outcomeIn P E m → outcomeIn P' E' m.
Proof.
  intros HP HE Hm w. specialize (Hm w). destruct (m w).1; auto.
Qed.

Lemma outcomeIn_ret {A} (P : A → Prop) E a : P a → outcomeIn P E (ret a).
Proof. by intros Ha w. Qed.

Lemma outcomeIn_throw {A} (P : A → Prop) (E : Exn → Prop) e :
  E e → outcomeIn P E (@throw A e).
Proof. by intros He w. Qed.

Lemma outcomeIn_bind {A B} (P : A → Prop) (P' : B → Prop) E
    (m : M A) (k : A → M B) :
  outcomeIn P E m → (∀ a, P a → outcomeIn P' E (k a)) →
  outcomeIn P' E (bind m k).
Proof.
  intros Hm Hk w. specialize (Hm w). unfold bind.
  destruct (m w) as [[a|e] w1]; simpl in *; [|done].
  by apply Hk.
Qed.

Lemma outcomeIn_lookup {A} (f : World → A) E :
  outcomeIn (λ _, True) E (λ w, (Ok (f w), w)).
Proof. by intros w. Qed.

Lemma faultOf_transport r e : faultOf r = Some e → transportFault e.
Proof.
  unfold faultOf. destruct r as [|status]; [done|].
  destruct (decide (status = Some 410)); [done|].
  intros [= <-]. by exists status.
Qed.

Lemma outcomeIn_postToConnection env cid data :
  outcomeIn (λ _, True) transportFault (postToConnection env cid data).
Proof.
  intros w. rewrite postToConnection_eq. unfold postOutcome. simpl.
  destruct (faultOf _) eqn:Hf; [|done]. by eapply faultOf_transport.
Qed.

Lemma outcomeIn_notifyClients env exclude :
  outcomeIn (λ _, True) transportFault (notifyClients env exclude).
Proof.
  intros w. rewrite notifyClients_eq. cbn [fst].
  destruct (notifyFault env exclude w) as [e|] eqn:Hf; [|done].
  apply broadcastFault_Some in Hf as (c & status & _ & _ & ? & ->).
  by exists status.
Qed.

Lemma outcomeIn_handleConnect env cid qs :
  outcomeIn (λ r, r = responseOk ∨ r = responseForbidden) transportFault
    (handleConnect env cid qs).
Proof.
  unfold handleConnect.
  destruct qs as [q|]; [|apply outcomeIn_ret; by right].
  destruct (q !! "nickname") as [nick|]; [|apply outcomeIn_ret; by right].
  destruct (truthy nick); [|apply outcomeIn_ret; by right].
  eapply outcomeIn_bind; [apply outcomeIn_lookup|]. intros existing _.
  eapply (outcomeIn_bind (λ _, True)).
  { destruct existing as [ex|]; [|by apply outcomeIn_ret].
    destruct (truthy ex);
      [apply outcomeIn_postToConnection|by apply outcomeIn_ret]. }
  intros [|] _; [apply outcomeIn_ret; by right|].
  eapply (outcomeIn_bind (λ _, True)); [by intros w|]. intros _ _.
  eapply outcomeIn_bind; [apply outcomeIn_notifyClients|]. intros _ _.
  apply outcomeIn_ret. by left.
Qed.

Lemma outcomeIn_handleDisconnect env cid :
  outcomeIn (λ r, r = responseOk) transportFault (handleDisconnect env cid).
Proof.
  unfold handleDisconnect.
  eapply (outcomeIn_bind (λ _, True)); [by intros w|]. intros _ _.
  eapply outcomeIn_bind; [apply outcomeIn_notifyClients|]. intros _ _.
  by apply outcomeIn_ret.
Qed.

Lemma outcomeIn_handleGetClients env cid :
  outcomeIn (λ r, r = responseOk) transportFault (handleGetClients env cid).
Proof.
  unfold handleGetClients.
  eapply outcomeIn_bind; [apply outcomeIn_lookup|]. intros cs _.
  eapply outcomeIn_bind; [apply outcomeIn_postToConnection|]. intros _ _.
  by apply outcomeIn_ret.
Qed.

Lemma outcomeIn_handleSendMessage env cid b :
  outcomeIn (λ r, r = responseOk) (λ e, transportFault e ∨ e = TypeError)
    (handleSendMessage env cid b).
Proof.
  unfold handleSendMessage.
  eapply outcomeIn_bind; [apply outcomeIn_lookup|].
  intros [sc|] _; [|apply outcomeIn_throw; by right].
  eapply (outcomeIn_bind (λ _, True)); [by intros w|]. intros _ _.
  eapply outcomeIn_bind; [apply outcomeIn_lookup|]. intros recipient _.
  eapply (outcomeIn_bind (λ _, True)); [|intros _ _; by apply outcomeIn_ret].
  destruct recipient as [rc|]; [|by apply outcomeIn_ret].
  destruct (truthy rc); [|by apply outcomeIn_ret].
  eapply outcomeIn_weaken; [| |apply outcomeIn_postToConnection]; auto.
Qed.

Lemma outcomeIn_handleGetMessages env cid b :
  outcomeIn (λ r, r = responseOk)
    (λ e, transportFault e ∨ e = TypeError ∨ e = ValidationException)
    (handleGetMessages env cid b).
Proof.
  unfold handleGetMessages.
  eapply outcomeIn_bind; [apply outcomeIn_lookup|].
  intros [c|] _; [|apply outcomeIn_throw; auto].
  eapply (outcomeIn_bind (λ _, True)).
  { intros w. unfold queryMessages. destruct (limit b <? 1); simpl; auto. }
  intros msgs _.
  eapply (outcomeIn_bind (λ _, True)); [|intros _ _; by apply outcomeIn_ret].
  eapply outcomeIn_weaken; [| |apply outcomeIn_postToConnection]; auto.
Qed.

Lemma parseSendMessageBody_throws env b e :
  parseSendMessageBody env b = Throw e →
  e = SyntaxError ∨ e = HandleError "Incorrect SendMessageBody format".
Proof.
  unfold parseSendMessageBody.
  destruct (JSON_parse env _) as [v|]; [|intros [= <-]; by left].
  destruct (falsy v); [intros [= <-]; by right|].
  destruct (getProp v "message") as [[| | |m| |]|];
    try (intros [= <-]; by right).
  destruct (getProp v "recipientNickname") as [[| | |r| |]|];
    intros [= <-]; by right.
Qed.

Lemma parseGetMessagesBody_throws env b e :
  parseGetMessagesBody env b = Throw e →
  e = SyntaxError ∨ e = HandleError "Incorrect GetMessages format".
Proof.
  unfold parseGetMessagesBody.
  destruct (JSON_parse env _) as [v|]; [|intros [= <-]; by left].
  destruct (falsy v); [intros [= <-]; by right|].
  destruct (getProp v "targetNickname") as [[| | |t| |]|];
    try (intros [= <-]; by right).
  destruct (getProp v "limit") as [[| |l| | |]|];
    intros [= <-]; by right.
Qed.

Lemma outcomeIn_catchParse {A} env cid (parsed : Outcome A) k
    (E : Exn → Prop) :
  (∀ e, parsed = Throw e → e = SyntaxError ∨ ∃ msg, e = HandleError msg) →
  (∀ e, transportFault e → E e) → E SyntaxError →
  (∀ a, outcomeIn (λ r, r = responseOk) E (k a)) →
  outcomeIn (λ r, r = responseOk) E (catchParse env cid parsed k).
Proof.
  intros Hparsed Ht Hs Hk. unfold catchParse.
  destruct parsed as [a|e]; [apply Hk|].
  destruct (Hparsed e eq_refl) as [->|[msg ->]]; [by apply outcomeIn_throw|].
  eapply (outcomeIn_bind (λ _, True)); [|intros _ _; by apply outcomeIn_ret].
  eapply outcomeIn_weaken; [| |apply outcomeIn_postToConnection]; auto.
Qed.

Lemma outcomeIn_sendRoute env event :
  outcomeIn (λ r, r = responseOk)
    (λ e, transportFault e ∨ e = SyntaxError ∨ e = TypeError)
    (catchParse env (ev_connectionId event)
       (parseSendMessageBody env (ev_body event))
       (handleSendMessage env (ev_connectionId event))).
Proof.
  apply outcomeIn_catchParse; [| |by right; left|]; auto.
  - intros e He. apply parseSendMessageBody_throws in He as [?|?]; eauto.
  - intros b. eapply outcomeIn_weaken;
      [| |apply outcomeIn_handleSendMessage]; [done|].
    intros e [?|?]; auto.
Qed.

Lemma outcomeIn_historyRoute env event :
  outcomeIn (λ r, r = responseOk)
    (λ e, transportFault e ∨ e = SyntaxError ∨ e = TypeError
          ∨ e = ValidationException)
    (catchParse env (ev_connectionId event)
       (parseGetMessagesBody env (ev_body event))
       (handleGetMessages env (ev_connectionId event))).
Proof.
  apply outcomeIn_catchParse; [| |by right; left|]; auto.
  - intros e He. apply parseGetMessagesBody_throws in He as [?|?]; eauto.
  - intros b. eapply outcomeIn_weaken;
      [| |apply outcomeIn_handleGetMessages]; [done|].
    intros e [?|[?|?]]; auto.
Qed.

(** X1: the response of [handle], when it returns one, is 200 on the five
    known routes, 403 on [$connect] only, and 500 exactly on an unknown
    route key, in which case nothing at all is done. *)
Theorem handle_response_codes env event w r w' :
  handle env event w = (Ok r, w') →
  (r = responseOk ∧ knownRoute (routeKey event))
  ∨ (r = responseForbidden ∧ routeKey event = "$connect")
  ∨ (r = responseUnhandled ∧ ¬ knownRoute (routeKey event) ∧ w' = w).
Proof.
  unfold handle, knownRoute. intros Hrun.
  destruct (String.eqb_spec (routeKey event) "$connect") as [Hrk|H1].
  { pose proof (outcomeIn_handleConnect env (ev_connectionId event)
                  (queryStringParameters event) w) as Ho.
    rewrite Hrun in Ho. destruct Ho as [->| ->]; auto. }
  destruct (String.eqb_spec (routeKey event) "$disconnect") as [Hrk|H2].
  { pose proof (outcomeIn_handleDisconnect env (ev_connectionId event) w)
      as Ho.
    rewrite Hrun in Ho. auto. }
  destruct (String.eqb_spec (routeKey event) "getClients") as [Hrk|H3].
  { pose proof (outcomeIn_handleGetClients env (ev_connectionId event) w)
      as Ho.
    rewrite Hrun in Ho. auto 6. }
  destruct (String.eqb_spec (routeKey event) "sendMessage") as [Hrk|H4].
  { pose proof (outcomeIn_sendRoute env event w) as Ho.
    rewrite Hrun in Ho. auto 7. }
  destruct (String.eqb_spec (routeKey event) "getMessages") as [Hrk|H5].
  { pose proof (outcomeIn_historyRoute env event w) as Ho.
    rewrite Hrun in Ho. auto 8. }
  injection Hrun as <- <-. right. right. split; [done|]. split; [|done].
  tauto.
Qed.

Lemma handle_response_codes_witness :
  (responseUnhandled = responseOk ∧ knownRoute "listClients")
  ∨ (responseUnhandled = responseForbidden ∧ "listClients" = "$connect")
  ∨ (responseUnhandled = responseUnhandled ∧ ¬ knownRoute "listClients"
     ∧ aliceAndBob = aliceAndBob).
Proof.
  apply (handle_response_codes (sampleEnv allDelivered)
           (mkEvent "1" "listClients" None None) aliceAndBob
           responseUnhandled aliceAndBob).
  reflexivity.
Defined.

(** X2: an exception leaving [handle] is a transport error with a status
    other than 410, or, on the two routes with a body, a [SyntaxError] of
    the JSON parser or the [TypeError] of an unregistered caller, or, on
    [getMessages], the store's rejection of the limit.  A [HandleError]
    and a 410 never leave [handle]. *)
Theorem handle_exceptions env event w e :
  (handle env event w).1 = Throw e →
  transportFault e
  ∨ ((routeKey event = "sendMessage" ∨ routeKey event = "getMessages")
     ∧ (e = SyntaxError ∨ e = TypeError))
  ∨ (routeKey event = "getMessages" ∧ e = ValidationException).
Proof.
  unfold handle. intros Hrun.
  destruct (String.eqb_spec (routeKey event) "$connect") as [Hrk|H1].
  { pose proof (outcomeIn_handleConnect env (ev_connectionId event)
                  (queryStringParameters event) w) as Ho.
    rewrite Hrun in Ho. by left. }
  destruct (String.eqb_spec (routeKey event) "$disconnect") as [Hrk|H2].
  { pose proof (outcomeIn_handleDisconnect env (ev_connectionId event) w)
      as Ho.
    rewrite Hrun in Ho. by left. }
  destruct (String.eqb_spec (routeKey event) "getClients") as [Hrk|H3].
  { pose proof (outcomeIn_handleGetClients env (ev_connectionId event) w)
      as Ho.
    rewrite Hrun in Ho. by left. }
  destruct (String.eqb_spec (routeKey event) "sendMessage") as [Hrk|H4].
  { pose proof (outcomeIn_sendRoute env event w) as Ho.
    rewrite Hrun in Ho. destruct Ho as [?|?]; auto. }
  destruct (String.eqb_spec (routeKey event) "getMessages") as [Hrk|H5].
  { pose proof (outcomeIn_historyRoute env event w) as Ho.
    rewrite Hrun in Ho. destruct Ho as [?|[?|[?|?]]]; auto. }
  done.
Qed.

Lemma handle_exceptions_witness :
  transportFault (TransportError (Some 500))
  ∨ ((routeKey (connectEvent "3" "carol") = "sendMessage"
      ∨ routeKey (connectEvent "3" "carol") = "getMessages")
     ∧ (TransportError (Some 500) = SyntaxError
        ∨ TransportError (Some 500) = TypeError))
  ∨ (routeKey (connectEvent "3" "carol") = "getMessages"
     ∧ TransportError (Some 500) = ValidationException).
Proof.
  apply (handle_exceptions (sampleEnv (failingFor "1"))
           (connectEvent "3" "carol") aliceAndBob).
  vm_compute. reflexivity.
Defined.

(** ** Connect requests without a usable nickname *)

Lemma handleConnect_blank_owner env cid q nick w :
  q !! "nickname" = Some nick → nick ≠ "" → ownerOf nick w = Some "" →
  handleConnect env cid (Some q) w =
  let w1 := applyEffect w (PutClient (mkClient cid nick)) in
  (outcomeOfFault (notifyFault env cid w1)
     responseOk,
   performs (notifyEffects env cid w1) w1).
Proof.
  intros Hq Hn Ho. unfold handleConnect. rewrite Hq.
  apply truthy_true in Hn. rewrite Hn.
  rewrite (bind_ok _ _ w (Some "") w)
    by (by rewrite getConnectionIdByNickname_eq, Ho).
  change (truthy "") with false.
  rewrite (bind_ok _ _ w false w) by done.
  rewrite (bind_ok _ _ w tt (applyEffect w (PutClient (mkClient cid nick))))
    by done.
  apply after_notify.
Qed.

Lemma handleConnect_acts env cid q nick w :
  q !! "nickname" = Some nick → nick ≠ "" →
  ∃ e es, (handleConnect env cid (Some q) w).2 = performs (e :: es) w.
Proof.
  intros Hq Hn. destruct (ownerOf nick w) as [ex|] eqn:Ho.
  - destruct (decide (ex = "")) as [->|Hex].
    { rewrite (handleConnect_blank_owner env cid q nick w) by done.
      by eexists _, _. }
    destruct (apiGw env ex PPing) as [|status] eqn:Hping.
    { rewrite (handleConnect_taken env cid q nick ex w) by done.
      by exists (Post ex PPing Delivered), []. }
    destruct (decide (status = Some 410)) as [->|Hst].
    + rewrite (handleConnect_stale env cid q nick ex w) by done.
      cbn zeta. cbn [snd]. rewrite <- performs_app. by eexists _, _.
    + rewrite (handleConnect_probe_fault env cid q nick ex status w) by done.
      by exists (Post ex PPing (Rejected status)), [].
  - rewrite (handleConnect_free env cid q nick w) by done. by eexists _, _.
Qed.

Lemma performs_fixed es w : performs es w = w → es = [].
Proof.
  intros H. apply (f_equal trace) in H. rewrite trace_performs in H.
  rewrite <- (app_nil_r (trace w)) in H at 2. by apply app_inv_head in H.
Qed.

(** X3: a connect request is refused with 403 without any push or write
    exactly when it claims no nickname: no query parameters, no
    [nickname] parameter, or the empty string. *)
Theorem handleConnect_without_nickname env cid qs w :
  handleConnect env cid qs w = (Ok responseForbidden, w)
  ↔ (qs ≫= (λ q, q !! "nickname")) = None
    ∨ (qs ≫= (λ q, q !! "nickname")) = Some "".
Proof.
  split.
  - intros Hrun. destruct qs as [q|]; [|by left]. simpl.
    destruct (q !! "nickname") as [nick|] eqn:Hq; [|by left].
    destruct (decide (nick = "")) as [->|Hn]; [by right|].
    destruct (handleConnect_acts env cid q nick w Hq Hn) as (e & es & Hes).
    rewrite Hrun in Hes. cbn [snd] in Hes. symmetry in Hes.
    by apply performs_fixed in Hes.
  - unfold handleConnect. destruct qs as [q|]; [|done]. simpl.
    intros [Hq|Hq]; by rewrite Hq.
Qed.

(** ** The roster request *)

Lemma handleGetClients_eq env cid w :
  handleGetClients env cid w =
  (outcomeOfFault (faultOf (apiGw env cid (rosterOf w))) responseOk,
   performs (postEffects env (rosterOf w) cid) w).
Proof.
  unfold handleGetClients, getAllClients, bind.
  rewrite postToConnection_eq. unfold postOutcome, rosterOf.
  by destruct (faultOf _).
Qed.

(** X4: [getClients] pushes one roster, to the caller only; the roster
    lists exactly the rows of the registry, and the caller need not be
    registered.  The request returns 200 when the push is delivered or
    answered 410, in which case the caller's own row is evicted; any other
    rejection is thrown.  No other row and no message changes. *)
Theorem handleGetClients_roster env cid w :
  let data := PClients (scanClients w) in
  let w' := (handleGetClients env cid w).2 in
  trace w' = trace w ++ postEffects env data cid
  ∧ (∀ c, pushesTo c (postEffects env data cid) =
          if decide (c = cid) then [data] else [])
  ∧ (∀ c, c ∈ scanClients w ↔
          clients w !! connectionId c = Some (nickname c))
  ∧ (handleGetClients env cid w).1 =
    outcomeOfFault (faultOf (apiGw env cid data)) responseOk
  ∧ (∀ c, clients w' !! c =
          if decide (c = cid ∧ apiGw env cid data = Rejected (Some 410))
          then None else clients w !! c)
  ∧ messages w' = messages w.
Proof.
  intros data w'. subst w'. rewrite handleGetClients_eq.
  unfold rosterOf, createClientsMessage. fold data. cbn [fst snd].
  split; [apply trace_performs|].
  split; [intros c; apply pushesTo_postEffects|].
  split; [intros c; apply elem_of_scanClients|].
  split; [done|]. split.
  - intros c. rewrite clients_performs, replay_postEffects.
    unfold isGone. destruct (decide (c = cid ∧ _)) as [[-> Hg]|Hno].
    + apply bool_decide_eq_true_1 in Hg. by rewrite decide_True.
    + rewrite decide_False; [done|]. intros [-> Hg]. apply Hno.
      split; [done|]. by apply bool_decide_eq_true_2.
  - apply messages_performs_no_put, postEffects_no_message.
Qed.

(** ** What the parsers accept *)

Lemma falsy_no_prop v name : falsy v = true → getProp v name = None.
Proof. by destruct v as [|[|]|[|?|?]|[|? ?]| |]. Qed.

(** X5: [parseSendMessageBody] returns a body exactly when the text, or
    the text of the empty object for a missing or empty body, parses to a
    value holding [message] and [recipientNickname] as strings, and the
    body returned holds these two strings; it throws a [SyntaxError]
    exactly when the text does not parse, and the format error
    otherwise. *)
Theorem parseSendMessageBody_accepts env b :
  (∀ body, parseSendMessageBody env b = Ok body ↔
     ∃ v, JSON_parse env (bodyOrEmptyObject b) = Some v
          ∧ getProp v "message" = Some (JStr (body_message body))
          ∧ getProp v "recipientNickname"
            = Some (JStr (recipientNickname body)))
  ∧ (parseSendMessageBody env b = Throw SyntaxError ↔
     JSON_parse env (bodyOrEmptyObject b) = None)
  ∧ parseSendMessageBody env None = parseSendMessageBody env (Some "").
Proof.
  split; [|split; [|done]].
  - intros [m r]. unfold parseSendMessageBody. cbn [body_message recipientNickname].
    destruct (JSON_parse env _) as [v|].
    2: { split; [done|]. by intros (v & ? & _). }
    destruct (falsy v) eqn:Hf.
    { split; [done|]. intros (v' & [= <-] & Hm & _).
      by rewrite falsy_no_prop in Hm. }
    split.
    + destruct (getProp v "message") as [[| | |m'| |]|] eqn:Hm; try done.
      destruct (getProp v "recipientNickname") as [[| | |r'| |]|] eqn:Hr;
        try done.
      intros [= -> ->]. by exists v.
    + intros (v' & [= <-] & -> & ->). done.
  - unfold parseSendMessageBody. destruct (JSON_parse env _) as [v|].
    + split; [|done]. destruct (falsy v); [done|].
      destruct (getProp v "message") as [[| | |m'| |]|]; try done.
      by destruct (getProp v "recipientNickname") as [[| | |r'| |]|].
    + done.
Qed.

(** X6: [parseGetMessagesBody] returns a body exactly when the text parses
    to a value holding [targetNickname] as a string and [limit] as a
    number; the body carries whatever the value holds under [startKey],
    unchecked.  It throws a [SyntaxError] exactly when the text does not
    parse. *)
Theorem parseGetMessagesBody_accepts env b :
  (∀ body, parseGetMessagesBody env b = Ok body ↔
     ∃ v, JSON_parse env (bodyOrEmptyObject b) = Some v
          ∧ getProp v "targetNickname" = Some (JStr (targetNickname body))
          ∧ getProp v "limit" = Some (JNum (limit body))
          ∧ startKey body = getProp v "startKey")
  ∧ (parseGetMessagesBody env b = Throw SyntaxError ↔
     JSON_parse env (bodyOrEmptyObject b) = None)
  ∧ parseGetMessagesBody env None = parseGetMessagesBody env (Some "").
Proof.
  split; [|split; [|done]].
  - intros [t l sk]. unfold parseGetMessagesBody.
    cbn [targetNickname limit startKey].
    destruct (JSON_parse env _) as [v|].
    2: { split; [done|]. by intros (v & ? & _). }
    destruct (falsy v) eqn:Hf.
    { split; [done|]. intros (v' & [= <-] & Hm & _).
      by rewrite falsy_no_prop in Hm. }
    split.
    + destruct (getProp v "targetNickname") as [[| | |t'| |]|] eqn:Ht;
        try done.
      destruct (getProp v "limit") as [[| |l'| | |]|] eqn:Hl; try done.
      intros [= -> -> <-]. by exists v.
    + intros (v' & [= <-] & -> & -> & ->). done.
  - unfold parseGetMessagesBody. destruct (JSON_parse env _) as [v|].
    + split; [|done]. destruct (falsy v); [done|].
      destruct (getProp v "targetNickname") as [[| | |t'| |]|]; try done.
      by destruct (getProp v "limit") as [[| |l'| | |]|].
    + done.
Qed.

(** ** Sending, whatever the delivery *)

(** X7: a send from a registered connection stores the message, under the
    identifier drawn for it and with the registered nickname as sender,
    before anything is pushed: the put of the message is the first effect,
    and the push to the recipient, if there is one, comes after it.  Every
    other stored message is left alone.  A push to the recipient answered
    410 is swallowed: the recipient's row is evicted and the sender still
    gets 200.  A push rejected otherwise throws, the message staying
    stored. *)
Theorem send_stored_whatever_delivery env cid b nick w :
  clients w !! cid = Some nick →
  let msg := sentMessage env nick b in
  let r := (handleSendMessage env cid b w).1 in
  let w' := (handleSendMessage env cid b w).2 in
  messages w' !! v4 env = Some msg
  ∧ sender msg = nick
  ∧ (∀ id, id ≠ v4 env → messages w' !! id = messages w !! id)
  ∧ trace w' =
    trace w ++ PutMessage msg
            :: match recipientOf b w with
               | Some rc => postEffects env (PMessage msg) rc
               | None => []
               end
  ∧ ∀ rc, recipientOf b w = Some rc →
      (apiGw env rc (PMessage msg) = Delivered →
       r = Ok responseOk ∧ clients w' = clients w)
      ∧ (apiGw env rc (PMessage msg) = Rejected (Some 410) →
         r = Ok responseOk ∧ clients w' = delete rc (clients w))
      ∧ (∀ status, apiGw env rc (PMessage msg) = Rejected status →
         status ≠ Some 410 →
         r = Throw (TransportError status) ∧ clients w' = clients w).
Proof.
  intros Hc msg r w'. subst r w'.
  rewrite (handleSendMessage_messages _ _ _ nick) by done. fold msg.
  split; [apply lookup_insert_eq|]. split; [done|].
  split; [intros id Hid; by rewrite lookup_insert_ne|].
  split.
  { rewrite (handleSendMessage_eq _ _ _ nick) by done. cbn zeta. fold msg.
    destruct (recipientOf b w) as [rc|]; [|done]. cbn [snd].
    rewrite (trace_performs (postEffects env _ rc)). simpl.
    by rewrite <- app_assoc. }
  intros rc Hrc. rewrite (handleSendMessage_eq _ _ _ nick) by done.
  cbn zeta. rewrite Hrc. fold msg. cbn [fst snd].
  rewrite clients_performs. unfold postEffects.
  split; [|split].
  - intros ->. done.
  - intros ->. done.
  - intros status -> Hst. rewrite (faultOf_Some _ status) by done.
    unfold isGone. by rewrite bool_decide_eq_false_2 by congruence.
Qed.

Lemma send_stored_whatever_delivery_witness :
  messages (handleSendMessage (sampleEnv (failingFor "2")) "1"
              (mkSendMessageBody "hi" "bob") aliceAndBob).2 !! "m-1"
  = Some (mkMessage "m-1" 1000 "alice#bob" "hi" "alice")
  ∧ (handleSendMessage (sampleEnv (failingFor "2")) "1"
       (mkSendMessageBody "hi" "bob") aliceAndBob).1
    = Throw (TransportError (Some 500)).
Proof.
  destruct (send_stored_whatever_delivery (sampleEnv (failingFor "2")) "1"
              (mkSendMessageBody "hi" "bob") "alice" aliceAndBob)
    as (Hstored & _ & _ & _ & Hpush).
  { vm_compute. reflexivity. }
  split; [exact Hstored|].
  destruct (Hpush "2") as (_ & _ & Hfault).
  { vm_compute. reflexivity. }
  apply (Hfault (Some 500)); [reflexivity|discriminate].
Defined.

(** ** What an invocation can do to the tables *)

(** X8: a registry row that exists after an invocation and did not exist
    before, with that nickname, is the row of the connecting connection
    itself, under the nickname it claimed: no request writes the row of
    another connection, and only [$connect] writes a row at all. *)
Theorem rows_written_only_by_own_connect env event w c n :
  clients (handle env event w).2 !! c = Some n →
  clients w !! c = Some n
  ∨ (routeKey event = "$connect" ∧ c = ev_connectionId event
     ∧ claimedNickname event = Some n).
Proof.
  destruct (handle_footprint env event w) as (es & -> & Hes).
  rewrite clients_performs. by apply (footprint_row_added env event).
Qed.

Lemma rows_written_only_by_own_connect_witness :
  clients aliceAndBob !! "3" = Some "carol"
  ∨ (routeKey (connectEvent "3" "carol") = "$connect"
     ∧ "3" = ev_connectionId (connectEvent "3" "carol")
     ∧ claimedNickname (connectEvent "3" "carol") = Some "carol").
Proof.
  apply (rows_written_only_by_own_connect (sampleEnv allDelivered)
           (connectEvent "3" "carol") aliceAndBob "3" "carol").
  vm_compute. reflexivity.
Defined.

(** X9: an invocation leaves every stored message as it was, except that a
    [sendMessage] writes the one item keyed by the identifier it draws:
    no route deletes or edits a message. *)
Theorem messages_written_only_by_send env event w id :
  routeKey event ≠ "sendMessage" ∨ id ≠ v4 env →
  messages (handle env event w).2 !! id = messages w !! id.
Proof.
  intros Hid. destruct (handle_footprint env event w) as (es & -> & Hes).
  by apply (footprint_messages env event).
Qed.

Lemma messages_written_only_by_send_witness :
  messages (handle (sampleEnv allDelivered)
              (sendEvent "1" (sendBodyText "hi" "bob")) aliceAndBob).2 !! "m-0"
  = messages aliceAndBob !! "m-0".
Proof.
  apply (messages_written_only_by_send (sampleEnv allDelivered)
           (sendEvent "1" (sendBodyText "hi" "bob")) aliceAndBob "m-0").
  right. discriminate.
Defined.

(** X10: a registry row that exists before an invocation and is gone after
    it is the row of the disconnecting connection, or the row of a
    connection to which this invocation pushed and got 410 back: a
    connection that answers its pushes is never evicted by someone else's
    request. *)
Theorem rows_removed_only_by_disconnect_or_gone env event w c n :
  clients w !! c = Some n →
  clients (handle env event w).2 !! c = None →
  (routeKey event = "$disconnect" ∧ c = ev_connectionId event)
  ∨ ∃ data, Post c data (Rejected (Some 410))
            ∈ drop (length (trace w)) (trace (handle env event w).2).
Proof.
  destruct (handle_footprint env event w) as (es & -> & Hes).
  rewrite clients_performs, trace_performs, drop_app_length.
  by apply (footprint_row_removed env event).
Qed.

Lemma rows_removed_only_by_disconnect_or_gone_witness :
  (routeKey (connectEvent "3" "carol") = "$disconnect"
   ∧ "2" = ev_connectionId (connectEvent "3" "carol"))
  ∨ ∃ data, Post "2" data (Rejected (Some 410))
            ∈ drop (length (trace aliceAndBob))
                (trace (handle (sampleEnv (goneFor "2"))
                          (connectEvent "3" "carol") aliceAndBob).2).
Proof.
  apply (rows_removed_only_by_disconnect_or_gone (sampleEnv (goneFor "2"))
           (connectEvent "3" "carol") aliceAndBob "2" "bob").
  - vm_compute. reflexivity.
  - vm_compute. reflexivity.
Defined.

(** ** Conversation keys *)

Lemma key_pair a b :
  getNicknameToNickname [a; b] =
  if String.leb a b then a +:+ "#" +:+ b else b +:+ "#" +:+ a.
Proof.
  unfold getNicknameToNickname, sort_strings. simpl.
  by destruct (String.leb a b).
Qed.

Lemma string_app_assoc (a b c : string) :
  (a +:+ b) +:+ c = a +:+ (b +:+ c).
Proof.
  induction a as [|x a IH]; [done|].
  change (String x ((a +:+ b) +:+ c) = String x (a +:+ (b +:+ c))).
  by rewrite IH.
Qed.

Lemma append_cons x (a s : string) :
  String x a +:+ s = String x (a +:+ s).
Proof. reflexivity. Qed.

Lemma append_hash_inj a b c d :
  hashFree a = true → hashFree c = true →
  a +:+ "#" +:+ b = c +:+ "#" +:+ d → a = c ∧ b = d.
Proof.
  revert c. induction a as [|x a IH]; intros [|y c] Ha Hc Heq.
  - change (String "#" b = String "#" d) in Heq. by injection Heq as <-.
  - change (String "#" b = String y (c +:+ "#" +:+ d)) in Heq.
    injection Heq as <- _. by simpl in Hc.
  - change (String x (a +:+ "#" +:+ b) = String "#" d) in Heq.
    injection Heq as -> _. by simpl in Ha.
  - rewrite !append_cons in Heq. injection Heq as -> Heq.
    simpl in Ha, Hc.
    apply andb_true_iff in Ha as [_ Ha]. apply andb_true_iff in Hc as [_ Hc].
    destruct (IH c Ha Hc Heq) as [-> ->]. done.
Qed.

(** X11: for nicknames without the separator [#], the conversation key
    determines the unordered pair of participants: two pairs with the same
    key are the same pair, in one order or the other. *)
Theorem conversation_key_injective a b c d :
  hashFree a = true → hashFree b = true →
  hashFree c = true → hashFree d = true →
  getNicknameToNickname [a; b] = getNicknameToNickname [c; d] →
  (a = c ∧ b = d) ∨ (a = d ∧ b = c).
Proof.
  intros Ha Hb Hc Hd. rewrite !key_pair.
  destruct (String.leb a b), (String.leb c d); intros Heq;
    apply append_hash_inj in Heq as [-> ->]; auto.
Qed.

Lemma conversation_key_injective_witness :
  ("alice" = "bob" ∧ "bob" = "alice") ∨ ("alice" = "alice" ∧ "bob" = "bob").
Proof.
  apply (conversation_key_injective "alice" "bob" "bob" "alice");
    reflexivity.
Defined.

(** X12: the separator is not escaped, so two different pairs share a
    key when a nickname holds a [#]: the pair of [a#b] and [c] and the pair
    of [a] and [b#c] get the same key whenever each pair is listed in
    order. *)
Theorem conversation_key_collision a b c :
  String.leb (a +:+ "#" +:+ b) c = true →
  String.leb a (b +:+ "#" +:+ c) = true →
  getNicknameToNickname [a +:+ "#" +:+ b; c]
  = getNicknameToNickname [a; b +:+ "#" +:+ c]
  ∧ a +:+ "#" +:+ b ≠ a.
Proof.
  intros H1 H2. rewrite !key_pair, H1, H2. split.
  - by rewrite string_app_assoc.
  - intros Heq. apply (f_equal String.length) in Heq.
    assert (∀ x y, String.length (x +:+ y)
                   = (String.length x + String.length y)%nat) as Hlen.
    { intros x y. induction x as [|ch x IH]; [done|].
      change (S (String.length (x +:+ y))
              = S (String.length x + String.length y)).
      by rewrite IH. }
    rewrite Hlen in Heq. simpl in Heq. lia.
Qed.

Lemma conversation_key_collision_witness :
  getNicknameToNickname ["a#b"; "c"] = getNicknameToNickname ["a"; "b#c"]
  ∧ "a#b" ≠ "a".
Proof.
  apply (conversation_key_collision "a" "b" "c"); reflexivity.
Defined.

(** ** History pages *)

(** X13: a history query from a registered connection with a limit of at
    least 1 pushes one page, to the caller only, and changes no message.
    The page holds at most [limit] messages; when no start key is given,
    every message of the page is a stored message of the conversation
    between the caller's nickname and the target, and a conversation
    without messages gives the empty page, which is pushed like any
    other. *)
Theorem history_page_bounds env cid b nick w :
  clients w !! cid = Some nick → 1 ≤ limit b →
  let page := historyPage env nick b w in
  let key := getNicknameToNickname [nick; targetNickname b] in
  let w' := (handleGetMessages env cid b w).2 in
  trace w' = trace w ++ postEffects env (PMessages page) cid
  ∧ (∀ c, pushesTo c (postEffects env (PMessages page) cid) =
          if decide (c = cid) then [PMessages page] else [])
  ∧ (handleGetMessages env cid b w).1 =
    outcomeOfFault (faultOf (apiGw env cid (PMessages page))) responseOk
  ∧ messages w' = messages w
  ∧ (length page ≤ Z.to_nat (limit b))%nat
  ∧ (startKey b = None →
     (∀ m, m ∈ page →
           nicknameToNickname m = key ∧ ∃ id, messages w !! id = Some m)
     ∧ ((∀ id m, messages w !! id = Some m → nicknameToNickname m ≠ key) →
        page = [])).
Proof.
  intros Hc Hl page key w'. subst w'.
  rewrite (handleGetMessages_eq env cid b nick w) by done.
  cbn zeta. cbn [fst snd]. fold page.
  split; [apply trace_performs|].
  split; [intros c; apply pushesTo_postEffects|].
  split; [done|].
  split; [apply messages_performs_no_put, postEffects_no_message|].
  split.
  { subst page. unfold historyPage. rewrite length_take. lia. }
  intros Hstart. subst page. unfold historyPage. rewrite Hstart.
  cbn zeta. fold key. split.
  - intros m Hm. apply subseteq_take in Hm.
    rewrite elem_of_newestFirst in Hm. by rewrite elem_of_conversation in Hm.
  - intros Hnone.
    assert (conversation key w = []) as ->; [|apply take_nil].
    destruct (conversation key w) as [|m l] eqn:Hconv; [done|].
    assert (m ∈ conversation key w) as Hm by (rewrite Hconv; left).
    apply elem_of_conversation in Hm as [Hk [id Hid]].
    by destruct (Hnone id m Hid).
Qed.

Lemma history_page_bounds_witness :
  (length (historyPage (sampleEnv allDelivered) "bob"
             (mkGetMessagesBody "alice" 10 None) aliceAndBob)
   ≤ Z.to_nat 10)%nat
  ∧ historyPage (sampleEnv allDelivered) "bob"
      (mkGetMessagesBody "alice" 10 None) aliceAndBob = [].
Proof.
  destruct (history_page_bounds (sampleEnv allDelivered) "2"
              (mkGetMessagesBody "alice" 10 None) "bob" aliceAndBob)
    as (_ & _ & _ & _ & Hlen & Hnone).
  - vm_compute. reflexivity.
  - simpl. lia.
  - split; [exact Hlen|]. apply Hnone; [reflexivity|].
    intros id m Hid. vm_compute in Hid. discriminate Hid.
Defined.

(** ** Announcing a new connection *)

(** X14: when a connect request claims a free nickname, the roster that
    is broadcast lists the new row together with every row that was there
    before; it is pushed once to every connection registered before, the
    new connection excepted, which gets no push at all. *)
Theorem connect_announces_to_others env cid q nick w :
  q !! "nickname" = Some nick → nick ≠ "" →
  (∀ c, clients w !! c ≠ Some nick) →
  let w1 := applyEffect w (PutClient (mkClient cid nick)) in
  let es := drop (length (trace w))
              (trace (handleConnect env cid (Some q) w).2) in
  mkClient cid nick ∈ scanClients w1
  ∧ (∀ c, connectionId c ≠ cid →
          c ∈ scanClients w1 ↔
          clients w !! connectionId c = Some (nickname c))
  ∧ (∀ c, pushesTo c es =
          if decide (c ≠ cid ∧ is_Some (clients w !! c))
          then [PClients (scanClients w1)] else []).
Proof.
  intros Hq Hn Hfree w1 es. subst es.
  apply ownerOf_None in Hfree.
  rewrite (handleConnect_free env cid q nick w) by done.
  cbn zeta. cbn [snd]. fold w1.
  rewrite trace_performs.
  assert (trace w1 = trace w ++ [PutClient (mkClient cid nick)]) as ->
    by done.
  rewrite <- app_assoc, drop_app_length.
  split.
  { apply elem_of_scanClients. apply lookup_insert_eq. }
  split.
  { intros c Hne. rewrite elem_of_scanClients. subst w1. simpl.
    by rewrite lookup_insert_ne. }
  intros c. change (pushesTo c ([?e] ++ ?l)) with (pushesTo c l).
  unfold notifyEffects.
  rewrite pushesTo_broadcastEffects by apply NoDup_notifyTargets.
  unfold rosterOf, createClientsMessage.
  destruct (decide (c ∈ notifyTargets cid w1)) as [Hin|Hnin].
  - rewrite decide_True; [done|].
    apply elem_of_notifyTargets in Hin as [Hne Hin]. split; [done|].
    subst w1. simpl in Hin. by rewrite lookup_insert_ne in Hin.
  - rewrite decide_False; [done|]. intros [Hne Hin]. apply Hnin.
    apply elem_of_notifyTargets. split; [done|].
    subst w1. simpl. by rewrite lookup_insert_ne.
Qed.

Lemma connect_announces_to_others_witness :
  pushesTo "3"
    (drop (length (trace aliceAndBob))
       (trace (handleConnect (sampleEnv allDelivered) "3"
                 (Some {["nickname" := "carol"]}) aliceAndBob).2))
  = if decide ("3" ≠ "3" ∧ is_Some (clients aliceAndBob !! "3"))
    then [PClients (scanClients
                      (applyEffect aliceAndBob
                         (PutClient (mkClient "3" "carol"))))]
    else [].
Proof.
  destruct (connect_announces_to_others (sampleEnv allDelivered) "3"
              {["nickname" := "carol"]} "carol" aliceAndBob
              (lookup_singleton_eq _ _)) as (_ & _ & Hpush).
  - discriminate.
  - apply ownerOf_None. vm_compute. reflexivity.
  - apply Hpush.
Defined.

(** ** Connect and disconnect in sequence *)

Lemma replay_broadcast_no_gone env data targets reg :
  (∀ c, apiGw env c data ≠ Rejected (Some 410)) →
  replay reg (broadcastEffects env data targets) = reg.
Proof.
  intros Hno. apply map_eq. intros c. rewrite replay_broadcastEffects.
  rewrite decide_False; [done|]. intros Hin.
  apply evicted_target in Hin as [_ Hg]. by destruct (Hno c).
Qed.

(** X15: connecting an unregistered connection under a free nickname and
    then disconnecting it gives back the registry it started from, when no
    push of the two broadcasts is answered 410; this holds whether or not
    the broadcasts fail otherwise. *)
Theorem connect_disconnect_round_trip env1 env2 cid q nick w :
  q !! "nickname" = Some nick → nick ≠ "" →
  (∀ c, clients w !! c ≠ Some nick) → clients w !! cid = None →
  (∀ c data, apiGw env1 c data ≠ Rejected (Some 410)) →
  (∀ c data, apiGw env2 c data ≠ Rejected (Some 410)) →
  let w1 := (handleConnect env1 cid (Some q) w).2 in
  clients w1 = <[cid := nick]> (clients w)
  ∧ clients (handleDisconnect env2 cid w1).2 = clients w
  ∧ messages (handleDisconnect env2 cid w1).2 = messages w.
Proof.
  intros Hq Hn Hfree Hcid Hno1 Hno2 w1.
  apply ownerOf_None in Hfree.
  assert (clients w1 = <[cid := nick]> (clients w)) as Hw1.
  { subst w1. rewrite (handleConnect_free env1 cid q nick w) by done.
    cbn zeta. cbn [snd]. rewrite clients_performs. unfold notifyEffects.
    by rewrite replay_broadcast_no_gone. }
  assert (messages w1 = messages w) as Hm1.
  { subst w1. rewrite (handleConnect_free env1 cid q nick w) by done.
    cbn zeta. cbn [snd].
    by rewrite messages_performs_no_put by apply broadcastEffects_no_message. }
  split; [done|]. rewrite handleDisconnect_eq. cbn zeta. cbn [snd]. split.
  - rewrite clients_performs. unfold notifyEffects.
    rewrite replay_broadcast_no_gone by done.
    simpl. rewrite Hw1. by apply delete_insert_id.
  - by rewrite messages_performs_no_put by apply broadcastEffects_no_message.
Qed.

Lemma connect_disconnect_round_trip_witness :
  clients (handleDisconnect (sampleEnv (failingFor "1")) "3"
             (handleConnect (sampleEnv allDelivered) "3"
                (Some {["nickname" := "carol"]}) aliceAndBob).2).2
  = clients aliceAndBob.
Proof.
  apply (connect_disconnect_round_trip (sampleEnv allDelivered)
           (sampleEnv (failingFor "1")) "3" {["nickname" := "carol"]}
           "carol" aliceAndBob (lookup_singleton_eq _ _)).
  - discriminate.
  - apply ownerOf_None. vm_compute. reflexivity.
  - vm_compute. reflexivity.
  - intros c data. discriminate.
  - intros c data. unfold sampleEnv, failingFor. cbn [apiGw].
    destruct (String.eqb c "1"); discriminate.
Defined.

Lemma replay_good reg es :
  goodRegistry reg → Forall (λ e, isPutClient e = false) es →
  goodRegistry (replay reg es).
Proof. intros Hg Hes. by apply timeline_last, timeline_good_no_put. Qed.

(** X16: after a connection has connected under a free nickname, in a
    registry with unique nicknames, the index finds that connection for
    the nickname, and a later connect request of any connection for the
    same nickname is refused with 403 when the ping to the owner is
    delivered, without any change to the tables. *)
Theorem connected_nickname_is_taken env1 env2 cid other q nick w :
  goodRegistry (clients w) → cid ≠ "" →
  q !! "nickname" = Some nick → nick ≠ "" →
  (∀ c, clients w !! c ≠ Some nick) →
  let w1 := (handleConnect env1 cid (Some q) w).2 in
  (getConnectionIdByNickname nick w1).1 = Ok (Some cid)
  ∧ (apiGw env2 cid PPing = Delivered →
     handleConnect env2 other (Some q) w1 =
     (Ok responseForbidden, applyEffect w1 (Post cid PPing Delivered))).
Proof.
  intros Hg Hcid Hq Hn Hfree w1.
  assert (ownerOf nick w1 = Some cid) as Ho.
  { apply ownerOf_None in Hfree. subst w1.
    rewrite (handleConnect_free env1 cid q nick w) by done.
    cbn zeta. cbn [snd]. apply ownerOf_unique.
    - rewrite clients_performs.
      apply replay_good; [|apply broadcastEffects_no_put].
      simpl. apply goodRegistry_insert; [done|done|].
      intros c Hc. rewrite ownerOf_None in Hfree. by destruct (Hfree c).
    - rewrite notify_keeps_excluded. apply lookup_insert_eq. }
  split.
  - by rewrite getConnectionIdByNickname_eq, Ho.
  - intros Hping. by apply (handleConnect_taken env2 other q nick cid w1).
Qed.

Lemma connected_nickname_is_taken_witness :
  handleConnect (sampleEnv allDelivered) "4" (Some {["nickname" := "carol"]})
    (handleConnect (sampleEnv allDelivered) "3"
       (Some {["nickname" := "carol"]}) aliceAndBob).2
  = (Ok responseForbidden,
     applyEffect
       (handleConnect (sampleEnv allDelivered) "3"
          (Some {["nickname" := "carol"]}) aliceAndBob).2
       (Post "3" PPing Delivered)).
Proof.
  destruct (connected_nickname_is_taken (sampleEnv allDelivered)
              (sampleEnv allDelivered) "3" "4" {["nickname" := "carol"]}
              "carol" aliceAndBob aliceAndBob_good) as [_ Htaken].
  - discriminate.
  - apply lookup_singleton_eq.
  - discriminate.
  - apply ownerOf_None. vm_compute. reflexivity.
  - apply Htaken. reflexivity.
Defined.

(** X17: a registered connection that sends to its own nickname, in a
    registry with unique nicknames, is itself the recipient: the stored
    message is pushed to the sender's connection. *)
Theorem send_to_own_nickname env cid b nick w :
  goodRegistry (clients w) →
  clients w !! cid = Some nick → recipientNickname b = nick →
  recipientOf b w = Some cid
  ∧ trace (handleSendMessage env cid b w).2 =
    trace w ++ PutMessage (sentMessage env nick b)
            :: postEffects env (PMessage (sentMessage env nick b)) cid.
Proof.
  intros [Hu He] Hc Hb.
  assert (recipientOf b w = Some cid) as Hrc.
  { unfold recipientOf. rewrite Hb, (ownerOf_unique nick w cid) by done.
    assert (truthy cid = true) as ->; [|done].
    apply truthy_true. intros ->. congruence. }
  split; [done|].
  rewrite (handleSendMessage_eq _ _ _ nick) by done. cbn zeta. rewrite Hrc.
  cbn [snd]. rewrite (trace_performs (postEffects env _ cid)). simpl.
  by rewrite <- app_assoc.
Qed.

Lemma send_to_own_nickname_witness :
  recipientOf (mkSendMessageBody "hi" "alice") aliceAndBob = Some "1".
Proof.
  apply (send_to_own_nickname (sampleEnv allDelivered) "1"
           (mkSendMessageBody "hi" "alice") "alice" aliceAndBob
           aliceAndBob_good).
  - vm_compute. reflexivity.
  - reflexivity.
Defined.

(** ** The join settles in time order *)

(** A broadcast is rejected with the rejection that comes first in time,
    not first in the array: connection 1 answers 500 and connection 2
    answers 503; when the answer of connection 2 arrives first, the
    handler throws 503. *)
Lemma broadcast_rejects_first_in_time :
  (handle (timedEnv (answers [("1", Rejected (Some 500));
                              ("2", Rejected (Some 503))])
             (times [("1", 2%nat); ("2", 1%nat)]))
     (connectEvent "3" "carol") aliceAndBob).1
  = Throw (TransportError (Some 503))
  ∧ (handle (timedEnv (answers [("1", Rejected (Some 500));
                                ("2", Rejected (Some 503))])
               (times [("1", 1%nat); ("2", 2%nat)]))
       (connectEvent "3" "carol") aliceAndBob).1
    = Throw (TransportError (Some 500)).
Proof. split; vm_compute; reflexivity. Qed.

(** When a broadcast is rejected, the eviction of a peer whose 410 comes
    later has not been done at the time the handler throws; it has been
    done when the 410 came first. *)
Lemma eviction_pending_at_rejection :
  clients (handle (timedEnv (answers [("1", Rejected (Some 500));
                                      ("2", Rejected (Some 410))])
                     (times [("1", 1%nat); ("2", 2%nat)]))
             (connectEvent "3" "carol") aliceAndBob).2 !! "2" = Some "bob"
  ∧ clients (handle (timedEnv (answers [("1", Rejected (Some 500));
                                        ("2", Rejected (Some 410))])
                       (times [("1", 2%nat); ("2", 1%nat)]))
               (connectEvent "3" "carol") aliceAndBob).2 !! "2" = None.
Proof. split; vm_compute; reflexivity. Qed.
